(** * The AdonisJS Ignitor: a shallow embedding of [src/Ignitor/index.ts]

    The Ignitor is the bootstrap sequencer of [@adonisjs/core]: it reads
    [.adonisrc.json], news up the IoC container, binds the helpers,
    registers and boots the providers, registers the autoloads, preloads
    files and finally starts the HTTP server.

    The class is embedded as a small state-and-error monad over the
    instance fields.  Every call that leaves the class (the module loader,
    the container, the registrar, the server, the router, the environment,
    the process) is logged in a trace and answered by a [World], so that
    the order of the calls can be stated and proved. *)

From Stdlib Require Import ZArith.
From stdpp Require Import base option list strings gmap fin_maps.

Local Open Scope string_scope.
Local Open Scope list_scope.

#[local] Arguments String.eqb : simpl never.

(** ** JavaScript values the Ignitor looks at *)

(** Thrown values.  [code] is the property [_require] inspects; it is
    [None] when the error object has no [code]. *)
Record Error := mkError {
  name : string;
  message : string;
  status : option Z;
  code : option string;
}.

Global Instance Error_eq_dec : EqDecision Error.
Proof. solve_decision. Defined.

(** [new Exception(message, status, code)] of [@adonisjs/utils]. *)
Definition Exception (msg : string) (st : Z) (c : string) : Error :=
  mkError "Exception" msg (Some st) (Some c).

(** The error the JavaScript runtime raises when a property of
    [undefined] or [null] is read, or a non-string reaches [path.join]. *)
Definition TypeError (msg : string) : Error :=
  mkError "TypeError" msg None None.

Inductive result (A : Type) : Type :=
| Ok (a : A)
| Throw (e : Error).
Global Arguments Ok {A} a.
Global Arguments Throw {A} e.

(** A path is kept as the argument list handed to [path.join]; the
    normalisation Node performs on it is not needed by any statement. *)
Definition path := list string.
Definition join (parts : list string) : path := parts.

(** Preload file node, as written in [.adonisrc.json].  [intent] is
    [None] when the key is absent; an absent [optional] reads as [false]
    (it reaches [_require] as [undefined], where the default applies). *)
Record PreloadNode := mkPreload {
  file : string;
  intent : option string;
  optional : bool;
}.

Global Instance PreloadNode_eq_dec : EqDecision PreloadNode.
Proof. solve_decision. Defined.

(** Shape of [.adonisrc.json].  A field is [None] when the key is missing
    (or holds [null]); an object, even an empty one, is [Some]. *)
Module RcFile.
Record RcFileNode := mk {
  typescript : option bool;
  preloads : option (list PreloadNode);
  autoloads : option (gmap string string);
  directories : option (gmap string string);
}.
(** The object literal [{}]. *)
Definition empty : RcFileNode := mk None None None None.
End RcFile.
Export RcFile (RcFileNode).

(** Defaults when file is missing or incomplete. *)
Module DEFAULTS.
Definition typescript : bool := false.
Definition autoloads : gmap string string := {[ "App" := "./app" ]}.
Definition preloads : list PreloadNode := [].
Definition directories : gmap string string :=
  list_to_map
    [ ("config", "./config");
      ("public", "./public");
      ("database", "./database");
      ("migrations", "./database/migrations");
      ("seeds", "./database/seeds");
      ("resources", "./resources");
      ("views", "./resources/views");
      ("tmp", "./tmp");
      ("start", "./start") ].
End DEFAULTS.

Definition provider := string.

(** What [start/app] exports.  A field is [None] when the export is
    missing or falsy; an array, even an empty one, is truthy. *)
Module App.
Record AppExports := mk {
  providers : option (list provider);
  aceProviders : option (list provider);
  commands : option (list string);
  aliases : option (gmap string string);
}.
Definition empty : AppExports := mk None None None None.
End App.
Export App (AppExports).

(** What a module can evaluate to, as far as the Ignitor can tell. *)
Inductive any :=
| JsNull
| JsRcFile (rc : RcFileNode)
| JsAppExports (e : AppExports)
| JsOther.

(** [value || {}] followed by reads of the rc keys: a falsy value gives
    the empty object, and an object without the rc keys reads as one. *)
Definition asRcFile (v : any) : RcFileNode :=
  match v with
  | JsRcFile rc => rc
  | _ => RcFile.empty
  end.

(** Reads of the export keys: [None] when the value is [null], on which
    the property read itself throws. *)
Definition asAppExports (v : any) : option AppExports :=
  match v with
  | JsNull => None
  | JsAppExports e => Some e
  | _ => Some App.empty
  end.

(** ** Collaborators *)

(** Modelled from the spec: the container of [@adonisjs/fold], which
    is not part of this package, as far as the Ignitor writes to it.
    [singleton(name, factory)] adds a binding; [alias(name, alias)] and
    [autoload(path, alias)] store under the alias, and an alias written
    again replaces the one written before (the alias-override step). *)
Record Ioc := mkIoc {
  ioc_typescript : option bool;
  ioc_singletons : list string;
  ioc_aliases : gmap string string;
  ioc_autoloads : gmap string path;
}.

Definition Ioc_new (ts : option bool) : Ioc := mkIoc ts [] ∅ ∅.
Definition Ioc_singleton (n : string) (c : Ioc) : Ioc :=
  mkIoc (ioc_typescript c) (n :: ioc_singletons c) (ioc_aliases c) (ioc_autoloads c).
Definition Ioc_alias (namespace alias : string) (c : Ioc) : Ioc :=
  mkIoc (ioc_typescript c) (ioc_singletons c) (<[alias := namespace]> (ioc_aliases c))
        (ioc_autoloads c).
Definition Ioc_autoload (p : path) (alias : string) (c : Ioc) : Ioc :=
  mkIoc (ioc_typescript c) (ioc_singletons c) (ioc_aliases c) (<[alias := p]> (ioc_autoloads c)).

(** Objects resolved from the container are opaque handles. *)
Definition object := string.

(** [server.handle.bind(server)]. *)
Inductive handler := Bound (server : object).

(** What ends up in [this.server]: Node's [createServer(handler)] or
    whatever the server callback returned. *)
Inductive transport :=
| HttpServer (h : handler)
| Custom (tag : string).

(** Everything outside the class, as answers to the calls it makes: the
    module loader [tsRequire], the registrar of [@adonisjs/fold] (its
    [register] and [boot] may rewrite the container), the bindings the
    container resolves, the router, the server, the environment and the
    transport. *)
Record World := mkWorld {
  tsRequire : path → option bool → result any;
  registrar_register : list provider → Ioc → result (list provider) * Ioc;
  registrar_boot : list provider → Ioc → result () * Ioc;
  ioc_use : string → result object;
  router_commit : object → result ();
  server_optimize : object → result ();
  env_get : object → string → option string;
  server_listen : transport → option string → option string → result ();
}.

(** ** The trace of outgoing calls *)

Inductive alias_site := ByHelpers | ByUser.

Inductive event :=
| TsRequire (filePath : path) (typescript : option bool)
| NewIoc (typescript : option bool)
| IocSingleton (namespace : string)
| IocAlias (site : alias_site) (namespace alias : string)
| NewRegistrar
| RegistrarRegister (chosen : list provider)
| RegistrarBoot (instances : list provider) (container : Ioc)
| IocAutoload (p : path) (alias : string)
| IocUse (namespace : string)
| RouterCommit (router : object)
| ServerOptimize (server : object)
| HandleBind (server : object)
| ServerCallback (h : handler)
| CreateServer (h : handler)
| EnvGet (env : object) (key : string)
| ServerListen (t : transport) (port host : option string)
| ConsoleLog (e : Error)
| ProcessExit (status : Z).

(** ** The instance and its monad *)

(** The instance fields; all but [appRoot] are [undefined] ([None])
    until the phase that assigns them has run. *)
Record Ignitor := mkIgnitor {
  appRoot : string;
  directories : option (gmap string string);
  autoloads : option (gmap string string);
  typescript : option bool;
  ioc : option Ioc;
  preloads : option (list PreloadNode);
  server : option transport;
  _intent : option string;
}.

(** [constructor (public appRoot: string) {}] *)
Definition new_Ignitor (root : string) : Ignitor :=
  mkIgnitor root None None None None None None None.

Definition set_directories (d : gmap string string) (s : Ignitor) : Ignitor :=
  mkIgnitor (appRoot s) (Some d) (autoloads s) (typescript s) (ioc s) (preloads s)
            (server s) (_intent s).
Definition set_autoloads (a : gmap string string) (s : Ignitor) : Ignitor :=
  mkIgnitor (appRoot s) (directories s) (Some a) (typescript s) (ioc s) (preloads s)
            (server s) (_intent s).
Definition set_typescript (b : bool) (s : Ignitor) : Ignitor :=
  mkIgnitor (appRoot s) (directories s) (autoloads s) (Some b) (ioc s) (preloads s)
            (server s) (_intent s).
Definition set_ioc (c : Ioc) (s : Ignitor) : Ignitor :=
  mkIgnitor (appRoot s) (directories s) (autoloads s) (typescript s) (Some c) (preloads s)
            (server s) (_intent s).
Definition set_preloads (p : list PreloadNode) (s : Ignitor) : Ignitor :=
  mkIgnitor (appRoot s) (directories s) (autoloads s) (typescript s) (ioc s) (Some p)
            (server s) (_intent s).
Definition set_server (t : option transport) (s : Ignitor) : Ignitor :=
  mkIgnitor (appRoot s) (directories s) (autoloads s) (typescript s) (ioc s) (preloads s)
            t (_intent s).
Definition set_intent (i : string) (s : Ignitor) : Ignitor :=
  mkIgnitor (appRoot s) (directories s) (autoloads s) (typescript s) (ioc s) (preloads s)
            (server s) (Some i).

(** A method body: from the instance to its outcome, the instance as the
    body left it, and the calls it made, oldest first. *)
Definition M (A : Type) : Type := Ignitor → result A * Ignitor * list event.

Definition ret {A} (a : A) : M A := λ s, (Ok a, s, []).
Definition throw {A} (e : Error) : M A := λ s, (Throw e, s, []).
Definition bind {A B} (m : M A) (f : A → M B) : M B := λ s,
  match m s with
  | (Ok a, s1, t1) =>
      match f a s1 with
      | (r, s2, t2) => (r, s2, t1 ++ t2)
      end
  | (Throw e, s1, t1) => (Throw e, s1, t1)
  end.
Definition this : M Ignitor := λ s, (Ok s, s, []).
Definition assign (f : Ignitor → Ignitor) : M () := λ s, (Ok (), f s, []).
Definition call (ev : event) : M () := λ s, (Ok (), s, [ev]).
Definition lift {A} (r : result A) : M A := λ s, (r, s, []).

(** [try { m } catch (error) { h error }] *)
Definition try_catch {A} (m : M A) (h : Error → M A) : M A := λ s,
  match m s with
  | (Ok a, s1, t1) => (Ok a, s1, t1)
  | (Throw e, s1, t1) =>
      match h e s1 with
      | (r, s2, t2) => (r, s2, t1 ++ t2)
      end
  end.

Notation "x <- m ;; k" := (bind m (λ x, k))
  (at level 100, m at next level, right associativity).
Notation "m ;;; k" := (bind m (λ _, k))
  (at level 100, right associativity).

(** [list.forEach(f)]: a throw leaves the loop. *)
Fixpoint forEach {A} (l : list A) (f : A → M ()) : M () :=
  match l with
  | [] => ret ()
  | x :: l' => f x ;;; forEach l' f
  end.

Definition outcome {A} (r : result A * Ignitor * list event) : result A := r.1.1.
Definition instance {A} (r : result A * Ignitor * list event) : Ignitor := r.1.2.
Definition trace {A} (r : result A * Ignitor * list event) : list event := r.2.

(** ** JavaScript operators used by the class *)

(** [array.indexOf(x)] with strict equality; an [undefined] needle is
    never found in an array of strings. *)
Fixpoint indexOf_from (i : Z) (l : list string) (x : string) : Z :=
  match l with
  | [] => (-1)%Z
  | y :: l' => if String.eqb y x then i else indexOf_from (i + 1)%Z l' x
  end.

Definition indexOf (l : list string) (x : option string) : Z :=
  match x with
  | Some c => indexOf_from 0%Z l c
  | None => (-1)%Z
  end.

(** Truthiness of a value that is a string or [undefined]. *)
Definition truthy (x : option string) : bool :=
  match x with
  | Some c => negb (String.eqb c "")
  | None => false
  end.

(** [a === b] on values that are strings or [undefined]. *)
Definition strict_eq (a b : option string) : bool := bool_decide (a = b).

(** [a || b] where [a] is a boolean or [undefined]. *)
Definition or_flag (a : option bool) (b : bool) : bool :=
  match a with
  | Some true => true
  | _ => b
  end.

(** [a || b] where [a] is an object or array, or [undefined]. *)
Definition or_else {A} (a : option A) (b : A) : A :=
  match a with
  | Some x => x
  | None => b
  end.

(** Modelled from the spec: lodash's [merge(object, ...sources)], which
    is not part of this package, on objects whose values are strings.
    The sources are merged key by key from left to right, a later source
    overrides, keys it does not set are retained, and an [undefined]
    source is skipped. *)
Definition merge (object : gmap string string)
    (sources : list (option (gmap string string))) : gmap string string :=
  foldl (λ acc src, match src with Some m => m ∪ acc | None => acc end) object sources.

(** [appExports[prop]] as a condition. *)
Definition has_export (e : AppExports) (prop : string) : bool :=
  if String.eqb prop "providers" then bool_decide (is_Some (App.providers e))
  else if String.eqb prop "aceProviders" then bool_decide (is_Some (App.aceProviders e))
  else if String.eqb prop "commands" then bool_decide (is_Some (App.commands e))
  else if String.eqb prop "aliases" then bool_decide (is_Some (App.aliases e))
  else false.

(** ** The methods of the class *)

Section Methods.
Context (w : World).

(** A method call on [this.ioc]: it fails on an unset container before
    the call is made, and otherwise leaves the container as [f] says. *)
Definition on_ioc (ev : event) (f : Ioc → Ioc) : M () :=
  s <- this ;;
  match ioc s with
  | None => throw (TypeError "Cannot read property of undefined")
  | Some c => call ev ;;; assign (set_ioc (f c))
  end.

(** [this.ioc.use(namespace)] *)
Definition use (namespace : string) : M object :=
  s <- this ;;
  match ioc s with
  | None => throw (TypeError "Cannot read property 'use' of undefined")
  | Some _ => call (IocUse namespace) ;;; lift (ioc_use w namespace)
  end.

(** Require a module and optionally ignore error if file is missing.
    [None] is the [return null] of the catch block, [Some v] the value
    the module evaluated to. *)
Definition _require (filePath : path) (optional : bool) : M (option any) :=
  s <- this ;;
  call (TsRequire filePath (typescript s)) ;;;
  match tsRequire w filePath (typescript s) with
  | Ok v => ret (Some v)
  | Throw error =>
      if (-1 <? indexOf ["MODULE_NOT_FOUND"; "ENOENT"] (code error))%Z && optional
      then ret None
      else throw error
  end.

(** Load [.adonisrc.json] file from the project root.  Only
    [directories] will be merged and everything else will overwrite the
    defaults. *)
Definition _loadRcFile : M () :=
  s <- this ;;
  v <- _require (join [appRoot s; ".adonisrc.json"]) true ;;
  let rcFile := or_else (asRcFile <$> v) RcFile.empty in
  assign (set_directories
            (merge ∅ [Some DEFAULTS.directories; RcFile.directories rcFile])) ;;;
  assign (set_autoloads (or_else (RcFile.autoloads rcFile) DEFAULTS.autoloads)) ;;;
  assign (set_typescript (or_flag (RcFile.typescript rcFile) DEFAULTS.typescript)) ;;;
  assign (set_preloads (or_else (RcFile.preloads rcFile) [])).

(** The message of the exception raised for a missing export. *)
Definition missing_export_message (prop start : string) : string :=
  "export `" +:+ prop +:+ "` from `" +:+ start +:+ "/app` file".

(** Loads start/app file from the project root.  Also ensures that all
    required exported props are defined. *)
Definition _loadAppFile : M AppExports :=
  s <- this ;;
  start <- match directories s with
           | None => throw (TypeError "Cannot read property 'start' of undefined")
           | Some d =>
               match d !! "start" with
               | None => throw (TypeError "The path argument must be of type string")
               | Some start => ret start
               end
           end ;;
  let appFile := join [appRoot s; start; "app"] in
  v <- _require appFile false ;;
  appExports <- match v ≫= asAppExports with
                | None => throw (TypeError "Cannot read property 'providers' of null")
                | Some e => ret e
                end ;;
  let requiredExports := ["providers"; "aceProviders"; "commands"] in
  forEach requiredExports (λ prop,
    if has_export appExports prop then ret ()
    else throw (Exception (missing_export_message prop start) 500
                          "E_MISSING_APP_ESSENTIALS")) ;;;
  ret appExports.

(** Instantiate IoC container: [new Ioc(false, this.typescript)]. *)
Definition _instantiateIoCContainer : M () :=
  s <- this ;;
  call (NewIoc (typescript s)) ;;;
  assign (set_ioc (Ioc_new (typescript s))).

(** Register autoloads.  The keys come in the order the map lists
    them; each is paired with the value [this.autoloads[alias]]. *)
Definition _registerAutoloads : M () :=
  s <- this ;;
  match autoloads s with
  | None => throw (TypeError "Cannot convert undefined or null to object")
  | Some a =>
      forEach (map_to_list a) (λ '(alias, dir),
        on_ioc (IocAutoload (join [appRoot s; dir]) alias)
               (Ioc_autoload (join [appRoot s; dir]) alias))
  end.

(** [registrar.useProviders(list).register()] on the registrar that
    holds [this.ioc]. *)
Definition register (chosen : list provider) : M (list provider) :=
  s <- this ;;
  match ioc s with
  | None => throw (TypeError "Cannot read property of undefined")
  | Some c =>
      call (RegistrarRegister chosen) ;;;
      assign (set_ioc (registrar_register w chosen c).2) ;;;
      lift (registrar_register w chosen c).1
  end.

(** [await registrar.boot(providersInstances)]; the call is logged with
    the container as the registrar finds it. *)
Definition boot (providersInstances : list provider) : M () :=
  s <- this ;;
  match ioc s with
  | None => throw (TypeError "Cannot read property of undefined")
  | Some c =>
      call (RegistrarBoot providersInstances c) ;;;
      assign (set_ioc (registrar_boot w providersInstances c).2) ;;;
      lift (registrar_boot w providersInstances c).1
  end.

(** A read of an export that [_loadAppFile] has checked to be there. *)
Definition checked {A} (x : option A) : M A :=
  match x with
  | Some a => ret a
  | None => throw (TypeError "Cannot read property of undefined")
  end.

(** Register and boot service providers. *)
Definition _bootProviders : M () :=
  call NewRegistrar ;;;
  appExports <- _loadAppFile ;;
  providers <- checked (App.providers appExports) ;;
  aceProviders <- checked (App.aceProviders appExports) ;;
  s <- this ;;
  let chosen := if strict_eq (_intent s) (Some "ace")
                then providers ++ aceProviders
                else providers in
  providersInstances <- register chosen ;;
  match App.aliases appExports with
  | Some aliases =>
      forEach (map_to_list aliases) (λ '(alias, namespace),
        on_ioc (IocAlias ByUser namespace alias) (Ioc_alias namespace alias))
  | None => ret ()
  end ;;;
  boot providersInstances.

(** Binds the Helpers class to the IoC container as a singleton. *)
Definition _bindHelpers : M () :=
  on_ioc (IocSingleton "Adonis/Src/Helpers") (Ioc_singleton "Adonis/Src/Helpers") ;;;
  on_ioc (IocAlias ByHelpers "Adonis/Src/Helpers" "Helpers")
         (Ioc_alias "Adonis/Src/Helpers" "Helpers").

(** The filter of [_preloadFiles]:
    [node.intent === this._intent || !node.intent]. *)
Definition matches_intent (current : option string) (node : PreloadNode) : bool :=
  strict_eq (intent node) current || negb (truthy (intent node)).

(** Preload files for the matching intent. *)
Definition _preloadFiles : M () :=
  s <- this ;;
  match preloads s with
  | None => throw (TypeError "Cannot read property 'filter' of undefined")
  | Some nodes =>
      forEach (List.filter (matches_intent (_intent s)) nodes) (λ node,
        _require (join [appRoot s; file node]) (optional node) ;;; ret ())
  end.

(** Bootstrap the application. *)
Definition _bootstrap : M () :=
  _loadRcFile ;;;
  _instantiateIoCContainer ;;;
  _bindHelpers ;;;
  _bootProviders ;;;
  _registerAutoloads ;;;
  _preloadFiles.

(** Start the HTTP server by pulling it from the IoC container.  A
    server callback answers with what it returns, [None] for
    [undefined]. *)
Definition _createHttp (serverCallback : option (handler → result (option transport)))
    : M () :=
  server <- use "Adonis/Src/Server" ;;
  router <- use "Adonis/Src/Route" ;;
  call (RouterCommit router) ;;;
  lift (router_commit w router) ;;;
  call (ServerOptimize server) ;;;
  lift (server_optimize w server) ;;;
  call (HandleBind server) ;;;
  let handler := Bound server in
  t <- match serverCallback with
       | Some cb => call (ServerCallback handler) ;;; lift (cb handler)
       | None =>
           call (HandleBind server) ;;;
           call (CreateServer (Bound server)) ;;;
           ret (Some (HttpServer (Bound server)))
       end ;;
  assign (set_server t).

(** Make HTTP server listen on a given port. *)
Definition _listen (port host : option string) : M () :=
  s <- this ;;
  match server s with
  | None => throw (TypeError "Cannot read property 'listen' of undefined")
  | Some t => call (ServerListen t port host) ;;; lift (server_listen w t port host)
  end.

(** Bootstrap the app. *)
Definition startHttpServer (serverCallback : option (handler → result (option transport)))
    : M () :=
  assign (set_intent "http") ;;;
  try_catch
    (_bootstrap ;;;
     _createHttp serverCallback ;;;
     Env <- use "Adonis/Src/Env" ;;
     call (EnvGet Env "PORT") ;;;
     call (EnvGet Env "HOST") ;;;
     _listen (env_get w Env "PORT") (env_get w Env "HOST"))
    (λ error, call (ConsoleLog error) ;;; call (ProcessExit 1)).

End Methods.

(** ** Reading traces *)

Definition is_require (e : event) : bool :=
  match e with TsRequire _ _ => true | _ => false end.
Definition is_new_ioc (e : event) : bool :=
  match e with NewIoc _ => true | _ => false end.
Definition is_helpers_singleton (e : event) : bool :=
  match e with IocSingleton _ => true | _ => false end.
Definition is_helpers_alias (e : event) : bool :=
  match e with IocAlias ByHelpers _ _ => true | _ => false end.
Definition is_helpers (e : event) : bool :=
  is_helpers_singleton e || is_helpers_alias e.
Definition is_register (e : event) : bool :=
  match e with RegistrarRegister _ => true | _ => false end.
Definition is_user_alias (e : event) : bool :=
  match e with IocAlias ByUser _ _ => true | _ => false end.
Definition is_boot (e : event) : bool :=
  match e with RegistrarBoot _ _ => true | _ => false end.
Definition is_autoload (e : event) : bool :=
  match e with IocAutoload _ _ => true | _ => false end.
Definition is_env_get (e : event) : bool :=
  match e with EnvGet _ _ => true | _ => false end.
Definition is_listen (e : event) : bool :=
  match e with ServerListen _ _ _ => true | _ => false end.

(** The calls [_bootProviders] may make. *)
Definition is_provider_step (e : event) : bool :=
  match e with
  | NewRegistrar | TsRequire _ _ | RegistrarRegister _ | IocAlias ByUser _ _
  | RegistrarBoot _ _ => true
  | _ => false
  end.

(** The calls [_createHttp] may make. *)
Definition is_http_step (e : event) : bool :=
  match e with
  | IocUse _ | RouterCommit _ | ServerOptimize _ | HandleBind _ | ServerCallback _
  | CreateServer _ => true
  | _ => false
  end.

(** Every [A] call comes strictly before every [B] call. *)
Definition all_before (A B : event → bool) (t : list event) : Prop :=
  ∀ i j a b, t !! i = Some a → t !! j = Some b → A a = true → B b = true → i < j.

(** Every [B] call has an [A] call somewhere before it. *)
Definition preceded_by (A B : event → bool) (t : list event) : Prop :=
  ∀ j b, t !! j = Some b → B b = true →
    ∃ i a, i < j ∧ t !! i = Some a ∧ A a = true.

(** The provider lists handed to the registrar, in call order. *)
Definition registered (t : list event) : list (list provider) :=
  omap (λ e, match e with RegistrarRegister l => Some l | _ => None end) t.

(** The module loads, in call order. *)
Definition required (t : list event) : list (path * option bool) :=
  omap (λ e, match e with TsRequire p ts => Some (p, ts) | _ => None end) t.

(** ** A small logic of traces

    [hoare I P m]: started on an instance that satisfies [I], the method
    [m] makes only calls that satisfy [P] and leaves an instance that
    satisfies [I]. *)

Definition hoare {A} (I : Ignitor → Prop) (P : event → Prop) (m : M A) : Prop :=
  ∀ s, I s → Forall P (trace (m s)) ∧ I (instance (m s)).

Definition emits {A} (P : event → Prop) (m : M A) : Prop :=
  ∀ s, Forall P (trace (m s)).

(** No call of the class [B]; only calls of the class [A]. *)
Definition none_of (B : event → bool) : event → Prop := λ e, B e = false.
Definition only (A : event → bool) : event → Prop := λ e, A e = true.

(** Whenever [m] returns, it has made a call of the class [A]. *)
Definition guarantees {X} (A : event → bool) (m : M X) : Prop :=
  ∀ s a, outcome (m s) = Ok a → Exists (λ e, A e = true) (trace (m s)).

(** ** Vocabulary of the statements *)

(** The error codes [_require] takes for a missing file. *)
Definition not_found_class (e : Error) : Prop :=
  code e = Some "MODULE_NOT_FOUND" ∨ code e = Some "ENOENT".

(** The path [_loadRcFile] reads. *)
Definition rcPath (s : Ignitor) : path := join [appRoot s; ".adonisrc.json"].

(** The instance after the four assignments of [_loadRcFile]. *)
Definition rc_applied (rcFile : RcFileNode) (s : Ignitor) : Ignitor :=
  set_preloads (or_else (RcFile.preloads rcFile) [])
    (set_typescript (or_flag (RcFile.typescript rcFile) DEFAULTS.typescript)
      (set_autoloads (or_else (RcFile.autoloads rcFile) DEFAULTS.autoloads)
        (set_directories
           (merge ∅ [Some DEFAULTS.directories; RcFile.directories rcFile]) s))).

(** The autoload map as the specification words it: the value of the rc
    file when it is present and non-empty, the default otherwise. *)
Definition autoloads_as_specified (rcFile : RcFileNode) : gmap string string :=
  match RcFile.autoloads rcFile with
  | Some a => if decide (a = ∅) then DEFAULTS.autoloads else a
  | None => DEFAULTS.autoloads
  end.

(** [_bootstrap] once the rc file is read, and [startHttpServer] once
    [_bootstrap] is over: names for the two tails of the sequence. *)
Definition after_rc (w : World) : M () :=
  _instantiateIoCContainer ;;;
  _bindHelpers ;;;
  _bootProviders w ;;;
  _registerAutoloads ;;;
  _preloadFiles w.

Definition launch (w : World) (cb : option (handler → result (option transport))) : M () :=
  _createHttp w cb ;;;
  Env <- use w "Adonis/Src/Env" ;;
  call (EnvGet Env "PORT") ;;;
  call (EnvGet Env "HOST") ;;;
  _listen w (env_get w Env "PORT") (env_get w Env "HOST").

(** The catch block of [startHttpServer]. *)
Definition on_failure (error : Error) : M () :=
  call (ConsoleLog error) ;;; call (ProcessExit 1).


(** Every module load in sight passes the flag [b]; the instance holds
    the flag [b]. *)
Definition loads_with (b : bool) : event → Prop :=
  λ e, ∀ p ts, e = TsRequire p ts → ts = Some b.
Definition flag_is (b : bool) : Ignitor → Prop :=
  λ s, typescript s = Some b.

(** The container once [_bindHelpers] is over, and the instance that
    [_bootProviders] then starts on. *)
Definition helpers_bound (ts : option bool) : Ioc :=
  Ioc_alias "Adonis/Src/Helpers" "Helpers"
    (Ioc_singleton "Adonis/Src/Helpers" (Ioc_new ts)).

Definition prepared (rcFile : RcFileNode) (s : Ignitor) : Ignitor :=
  set_ioc (helpers_bound (typescript (rc_applied rcFile s))) (rc_applied rcFile s).

(** The calls made up to that point. *)
Definition prepared_trace (rcFile : RcFileNode) (s : Ignitor) : list event :=
  [ TsRequire (rcPath s) (typescript s);
    NewIoc (typescript (rc_applied rcFile s));
    IocSingleton "Adonis/Src/Helpers";
    IocAlias ByHelpers "Adonis/Src/Helpers" "Helpers" ].

(** [_bootstrap] from [_bootProviders] on. *)
Definition after_helpers (w : World) : M () :=
  _bootProviders w ;;; _registerAutoloads ;;; _preloadFiles w.

(** The path [_loadAppFile] reads, and the first required export that
    the exports lack, if any. *)
Definition appFile (s : Ignitor) (start : string) : path := join [appRoot s; start; "app"].

Definition missing_export (e : AppExports) : option string :=
  List.find (λ prop, negb (has_export e prop)) ["providers"; "aceProviders"; "commands"].

(** The user aliases as [_bootProviders] applies them: the calls, and
    the container they leave. *)
Definition user_alias_events (aliases : gmap string string) : list event :=
  map (λ '(alias, namespace), IocAlias ByUser namespace alias) (map_to_list aliases).

Definition user_aliases_applied (aliases : gmap string string) (c : Ioc) : Ioc :=
  foldl (λ c '(alias, namespace), Ioc_alias namespace alias c) c (map_to_list aliases).

(** The ordering contract of the sequencer as the specification words
    it: helpers bound before any provider is registered or booted, user
    aliases after the registration and before the boot, autoloads
    registered before the providers boot. *)
Definition ordering_as_specified (t : list event) : Prop :=
  preceded_by is_helpers_singleton is_register t ∧
  preceded_by is_helpers_alias is_register t ∧
  preceded_by is_helpers_alias is_boot t ∧
  preceded_by is_register is_user_alias t ∧
  all_before is_register is_user_alias t ∧
  all_before is_user_alias is_boot t ∧
  all_before is_autoload is_boot t.

(** The ordering contract the sequencer keeps: as above, but the
    autoloads are registered only once the providers have booted. *)
Definition ordering_contract (t : list event) : Prop :=
  preceded_by is_helpers_singleton is_register t ∧
  preceded_by is_helpers_alias is_register t ∧
  preceded_by is_helpers_alias is_boot t ∧
  preceded_by is_register is_user_alias t ∧
  all_before is_register is_user_alias t ∧
  all_before is_user_alias is_boot t ∧
  preceded_by is_boot is_autoload t ∧
  all_before is_boot is_autoload t.









(** ** Sample projects *)

Module Sample.

(** The error Node raises for a file that is not there. *)
Definition not_found : Error :=
  mkError "Error" "Cannot find module" None (Some "MODULE_NOT_FOUND").

Fixpoint lookup_file (files : list (path * any)) (p : path) : result any :=
  match files with
  | [] => Throw not_found
  | (q, v) :: files' => if decide (q = p) then Ok v else lookup_file files' p
  end.

(** A project on disk: [files] are the modules that exist, anything
    else is not found; registering the providers makes them declare
    [provider_aliases]; all other collaborators answer without error and
    the environment knows the [env] variables. *)
Definition project (files : list (path * any))
    (provider_aliases : list (string * string)) (env : gmap string string) : World :=
  mkWorld
    (λ p _, lookup_file files p)
    (λ l c, (Ok l, foldl (λ c '(alias, namespace), Ioc_alias namespace alias c)
                         c provider_aliases))
    (λ _ c, (Ok (), c))
    (λ namespace, Ok namespace)
    (λ _, Ok ())
    (λ _, Ok ())
    (λ _ key, env !! key)
    (λ _ _ _, Ok ()).

(** An rc file that declares an empty [autoloads] object, and a
    project that has it. *)
Definition rc_empty_autoloads : RcFileNode :=
  RcFile.mk None None (Some ∅) None.
Definition empty_autoloads_project : World :=
  project [(["/srv"; ".adonisrc.json"], JsRcFile rc_empty_autoloads)] [] ∅.

(** An rc file that moves two directories and sets its own autoloads. *)
Definition rc_custom : RcFileNode :=
  RcFile.mk (Some true) None (Some {[ "Lib" := "./lib" ]})
            (Some {[ "start" := "./boot"; "views" := "./templates" ]}).


Definition app_ab : AppExports :=
  App.mk (Some ["A"; "B"]) (Some ["C"]) (Some []) (Some {[ "X" := "B" ]}).



(** A project without rc file whose providers alias [X] to [A] and
    [Y] to [B] for themselves, while [start/app] aliases [X] to [B]. *)
Definition aliases_project : World :=
  project [ (["/srv"; "./start"; "app"], JsAppExports app_ab) ]
          [ ("X", "A"); ("Y", "B") ] ∅.

(** A project whose [start/app] has no [commands] export. *)
Definition app_without_commands : AppExports :=
  App.mk (Some ["A"; "B"]) (Some ["C"]) None None.

Definition incomplete_project : World :=
  project [ (["/srv"; "./start"; "app"], JsAppExports app_without_commands) ] [] ∅.

(** The instance of a project when [_bootProviders] starts. *)
Definition before_providers (w : World) (run_intent : string) : Ignitor :=
  instance ((_loadRcFile w ;;; _instantiateIoCContainer ;;; _bindHelpers)
              (set_intent run_intent (new_Ignitor "/srv"))).


(** A project that boots, with [PORT] and [HOST] in its environment,
    and its instance when [_bootstrap] is over. *)
Definition http_project : World :=
  project [ (["/srv"; "./start"; "app"], JsAppExports app_ab) ] []
          {[ "PORT" := "3333"; "HOST" := "0.0.0.0" ]}.

Definition http_ready : Ignitor :=
  Eval vm_compute in
    instance (_bootstrap http_project (set_intent "http" (new_Ignitor "/srv"))).

Definition http_container : Ioc :=
  Eval vm_compute in default (Ioc_new None) (ioc http_ready).

Definition custom_project : World :=
  project [(["/srv"; ".adonisrc.json"], JsRcFile rc_custom)] [] ∅.

End Sample.

(** ** Vocabulary of the further statements *)

(** The try block of [startHttpServer]. *)
Definition start_body (w : World) (cb : option (handler → result (option transport)))
    : M () :=
  _bootstrap w ;;; launch w cb.






(** ** Further sample projects *)

Module Cases.

(** A syntax error in a file that exists: an error without [code]. *)
Definition syntax_error : Error :=
  mkError "SyntaxError" "Unexpected token } in JSON" None None.

(** A provider whose [register] throws, and a binding that is not
    there. *)
Definition provider_error : Error :=
  mkError "Error" "Cannot register provider" None None.
Definition unbound : Error :=
  mkError "Error" "Cannot find module Adonis/Src/Route" None (Some "MODULE_NOT_FOUND").

(** The rc file exists and is broken. *)
Definition broken_rc_project : World :=
  mkWorld
    (λ p _, if decide (p = ["/srv"; ".adonisrc.json"]) then Throw syntax_error
            else tsRequire Sample.http_project p None)
    (registrar_register Sample.http_project)
    (registrar_boot Sample.http_project)
    (ioc_use Sample.http_project)
    (router_commit Sample.http_project)
    (server_optimize Sample.http_project)
    (env_get Sample.http_project)
    (server_listen Sample.http_project).

(** The descriptor exports no [aliases]. *)
Definition app_without_aliases : AppExports :=
  App.mk (Some ["A"]) (Some []) (Some []) None.

Definition no_aliases_project : World :=
  Sample.project [ (["/srv"; "./start"; "app"], JsAppExports app_without_aliases) ] [] ∅.

(** There is no [start/app] file at all. *)
Definition no_app_project : World := Sample.project [] [] ∅.

(** The registration of the providers throws. *)
Definition register_fails_project : World :=
  mkWorld
    (tsRequire Sample.http_project)
    (λ _ c, (Throw provider_error, c))
    (registrar_boot Sample.http_project)
    (ioc_use Sample.http_project)
    (router_commit Sample.http_project)
    (server_optimize Sample.http_project)
    (env_get Sample.http_project)
    (server_listen Sample.http_project).

(** The container has no router. *)
Definition no_router_project : World :=
  mkWorld
    (tsRequire Sample.http_project)
    (registrar_register Sample.http_project)
    (registrar_boot Sample.http_project)
    (λ namespace, if decide (namespace = "Adonis/Src/Route") then Throw unbound
                  else Ok namespace)
    (router_commit Sample.http_project)
    (server_optimize Sample.http_project)
    (env_get Sample.http_project)
    (server_listen Sample.http_project).


End Cases.
(** * Proofs *)

(** ** Running a method step by step *)

Section Run.
Context {A B : Type}.
Implicit Types (m : M A) (f : A → M B) (s : Ignitor).

Lemma trace_bind m f s :
  trace (bind m f s) =
    trace (m s) ++ match outcome (m s) with
                   | Ok a => trace (f a (instance (m s)))
                   | Throw _ => []
                   end.
Proof.
  unfold bind, trace, outcome, instance.
  destruct (m s) as [[[a|e] s1] t1]; simpl.
  - by destruct (f a s1) as [[r s2] t2].
  - by rewrite app_nil_r.
Qed.

Lemma outcome_bind m f s :
  outcome (bind m f s) =
    match outcome (m s) with
    | Ok a => outcome (f a (instance (m s)))
    | Throw e => Throw e
    end.
Proof.
  unfold bind, outcome, instance.
  destruct (m s) as [[[a|e] s1] t1]; simpl; [|done].
  by destruct (f a s1) as [[r s2] t2].
Qed.

Lemma instance_bind m f s :
  instance (bind m f s) =
    match outcome (m s) with
    | Ok a => instance (f a (instance (m s)))
    | Throw _ => instance (m s)
    end.
Proof.
  unfold bind, outcome, instance.
  destruct (m s) as [[[a|e] s1] t1]; simpl; [|done].
  by destruct (f a s1) as [[r s2] t2].
Qed.

Lemma bind_this (g : Ignitor → M B) s : bind this g s = g s s.
Proof. unfold bind, this. by destruct (g s s) as [[r s2] t2]. Qed.

End Run.

Lemma trace_try_catch {A} (m : M A) (h : Error → M A) s :
  trace (try_catch m h s) =
    trace (m s) ++ match outcome (m s) with
                   | Ok _ => []
                   | Throw e => trace (h e (instance (m s)))
                   end.
Proof.
  unfold try_catch, trace, outcome, instance.
  destruct (m s) as [[[a|e] s1] t1]; simpl.
  - by rewrite app_nil_r.
  - by destruct (h e s1) as [[r s2] t2].
Qed.


Section Hoare.
Context (I : Ignitor → Prop) (P : event → Prop).

Lemma hoare_ret {A} (a : A) : hoare I P (ret a).
Proof. intros s Hs. by split; [constructor|]. Qed.

Lemma hoare_throw {A} e : hoare I P (@throw A e).
Proof. intros s Hs. by split; [constructor|]. Qed.

Lemma hoare_lift {A} (r : result A) : hoare I P (lift r).
Proof. intros s Hs. by split; [constructor|]. Qed.

Lemma hoare_call ev : P ev → hoare I P (call ev).
Proof. intros Hev s Hs. split; [by repeat constructor|done]. Qed.

Lemma hoare_assign (g : Ignitor → Ignitor) :
  (∀ s, I s → I (g s)) → hoare I P (assign g).
Proof. intros Hg s Hs. split; [constructor|by apply Hg]. Qed.

Lemma hoare_bind {A B} (m : M A) (f : A → M B) :
  hoare I P m → (∀ a, hoare I P (f a)) → hoare I P (bind m f).
Proof.
  intros Hm Hf s Hs. destruct (Hm s Hs) as [Ht Hi].
  rewrite trace_bind, instance_bind.
  destruct (outcome (m s)) as [a|e].
  - destruct (Hf a _ Hi) as [Ht' Hi']. split; [by apply Forall_app|done].
  - by rewrite app_nil_r.
Qed.

(** [s <- this ;; ...]: the body may use that [s] satisfies [I]. *)
Lemma hoare_this {B} (g : Ignitor → M B) :
  (∀ s, I s → hoare I P (g s)) → hoare I P (bind this g).
Proof. intros Hg s Hs. rewrite bind_this. by apply Hg. Qed.

Lemma hoare_forEach {A} (l : list A) (f : A → M ()) :
  (∀ x, hoare I P (f x)) → hoare I P (forEach l f).
Proof.
  intros Hf. induction l as [|x l IH]; simpl.
  - apply hoare_ret.
  - apply hoare_bind; [apply Hf|by intros _].
Qed.

Lemma hoare_try_catch {A} (m : M A) (h : Error → M A) :
  hoare I P m → (∀ e, hoare I P (h e)) → hoare I P (try_catch m h).
Proof.
  intros Hm Hh s Hs. destruct (Hm s Hs) as [Ht Hi].
  unfold try_catch, trace, instance in *.
  destruct (m s) as [[[a|e] s1] t1]; simpl in *; [done|].
  destruct (Hh e s1 Hi) as [Ht' Hi']. unfold trace, instance in *.
  destruct (h e s1) as [[r s2] t2]; simpl in *.
  split; [by apply Forall_app|done].
Qed.

Lemma hoare_checked {A} (x : option A) : hoare I P (checked x).
Proof. destruct x; [apply hoare_ret|apply hoare_throw]. Qed.

End Hoare.

Lemma hoare_emits {A} (P : event → Prop) (m : M A) :
  hoare (λ _, True) P m ↔ emits P m.
Proof.
  split.
  - intros H s. by apply H.
  - intros H s _. by split.
Qed.

Lemma emits_mono {A} (P Q : event → Prop) (m : M A) :
  (∀ e, P e → Q e) → emits P m → emits Q m.
Proof. intros HPQ Hm s. eapply Forall_impl; [apply Hm|done]. Qed.

(** Walks through a method, leaving [tac] to justify each call. *)
Ltac hoare_with tac :=
  repeat first
    [ apply hoare_ret | apply hoare_throw | apply hoare_lift | apply hoare_checked
    | apply hoare_this; intros ? ?
    | apply hoare_bind; [|intros ?]
    | apply hoare_forEach; intros ?
    | apply hoare_try_catch; [|intros ?]
    | apply hoare_call; tac
    | apply hoare_assign; try done
    | progress case_match ].

Ltac hoare_auto := hoare_with ltac:(try done).

(** *** Order of calls *)

Lemma none_of_lookup B t i e :
  Forall (none_of B) t → t !! i = Some e → B e = true → False.
Proof.
  intros Ht Hi He. eapply Forall_lookup_1 in Ht; [|done].
  unfold none_of in Ht. congruence.
Qed.

Lemma all_before_none_l A B t : Forall (none_of A) t → all_before A B t.
Proof. intros Ht i j a b Hi _ Ha _. by destruct (none_of_lookup A t i a). Qed.

Lemma all_before_none_r A B t : Forall (none_of B) t → all_before A B t.
Proof. intros Ht i j a b _ Hj _ Hb. by destruct (none_of_lookup B t j b). Qed.

Lemma all_before_app A B t1 t2 :
  all_before A B t1 → all_before A B t2 →
  Forall (none_of B) t1 ∨ Forall (none_of A) t2 →
  all_before A B (t1 ++ t2).
Proof.
  intros H1 H2 Hsplit i j a b Hi Hj Ha Hb.
  apply lookup_app_Some in Hi as [Hi|[Hli Hi]];
    apply lookup_app_Some in Hj as [Hj|[Hlj Hj]].
  - by eapply H1.
  - apply lookup_lt_Some in Hi. lia.
  - destruct Hsplit as [Hn|Hn].
    + by destruct (none_of_lookup B t1 j b).
    + by destruct (none_of_lookup A t2 (i - length t1) a).
  - specialize (H2 _ _ _ _ Hi Hj Ha Hb). lia.
Qed.

Lemma preceded_by_none A B t : Forall (none_of B) t → preceded_by A B t.
Proof. intros Ht j b Hj Hb. by destruct (none_of_lookup B t j b). Qed.

Lemma preceded_by_app_r A B t1 t2 :
  Forall (none_of B) t1 → preceded_by A B t2 → preceded_by A B (t1 ++ t2).
Proof.
  intros H1 H2 j b Hj Hb.
  apply lookup_app_Some in Hj as [Hj|[Hlj Hj]].
  - by destruct (none_of_lookup B t1 j b).
  - destruct (H2 _ _ Hj Hb) as (i & a & Hlt & Hi & Ha).
    exists (length t1 + i), a. split_and!; [lia| |done].
    by rewrite lookup_app_r, Nat.add_comm, Nat.add_sub by lia.
Qed.

Lemma preceded_by_app_l A B t1 t2 :
  preceded_by A B t1 → (t2 ≠ [] → Exists (λ e, A e = true) t1) →
  preceded_by A B (t1 ++ t2).
Proof.
  intros H1 Hex j b Hj Hb.
  apply lookup_app_Some in Hj as [Hj|[Hlj Hj]].
  - destruct (H1 _ _ Hj Hb) as (i & a & Hlt & Hi & Ha).
    exists i, a. split_and!; [done| |done]. by apply lookup_app_l_Some.
  - assert (t2 ≠ []) as Hne by (intros ->; by rewrite lookup_nil in Hj).
    apply Hex, Exists_exists in Hne as [a [Hin Ha]].
    apply list_elem_of_lookup in Hin as [i Hi].
    exists i, a. split_and!; [|by apply lookup_app_l_Some|done].
    apply lookup_lt_Some in Hi. lia.
Qed.

Lemma preceded_by_app_done A B t1 t2 :
  preceded_by A B t1 → Forall (none_of B) t2 → preceded_by A B (t1 ++ t2).
Proof.
  intros H1 H2 j b Hj Hb.
  apply lookup_app_Some in Hj as [Hj|[Hlj Hj]].
  - destruct (H1 _ _ Hj Hb) as (i & a & Hlt & Hi & Ha).
    exists i, a. split_and!; [done| |done]. by apply lookup_app_l_Some.
  - by destruct (none_of_lookup B t2 (j - length t1) b).
Qed.

Section Order.
Context {X Y : Type} (A B : event → bool).
Implicit Types (m : M X) (f : X → M Y).

(** The [B] calls can only start once [m] is over. *)
Lemma all_before_bind_r m f :
  emits (none_of B) m → (∀ a s, all_before A B (trace (f a s))) →
  ∀ s, all_before A B (trace (bind m f s)).
Proof.
  intros Hm Hf s. rewrite trace_bind. apply all_before_app.
  - by apply all_before_none_r.
  - destruct (outcome (m s)); [apply Hf|]. by apply all_before_none_l.
  - by left.
Qed.

(** The [A] calls are over when [m] is. *)
Lemma all_before_bind_l m f :
  (∀ s, all_before A B (trace (m s))) → (∀ a, emits (none_of A) (f a)) →
  ∀ s, all_before A B (trace (bind m f s)).
Proof.
  intros Hm Hf s. rewrite trace_bind.
  destruct (outcome (m s)) as [a|e].
  - apply all_before_app; [apply Hm|apply all_before_none_l, Hf|right; apply Hf].
  - rewrite app_nil_r. apply Hm.
Qed.

Lemma preceded_by_bind_r m f :
  emits (none_of B) m → (∀ a s, preceded_by A B (trace (f a s))) →
  ∀ s, preceded_by A B (trace (bind m f s)).
Proof.
  intros Hm Hf s. rewrite trace_bind. apply preceded_by_app_r; [apply Hm|].
  destruct (outcome (m s)); [apply Hf|]. by apply preceded_by_none.
Qed.

(** Once [m] has returned, an [A] call has been made. *)
Lemma preceded_by_bind_l m f :
  (∀ s, preceded_by A B (trace (m s))) →
  (∀ s a, outcome (m s) = Ok a → Exists (λ e, A e = true) (trace (m s))) →
  ∀ s, preceded_by A B (trace (bind m f s)).
Proof.
  intros Hm Hex s. rewrite trace_bind. apply preceded_by_app_l; [apply Hm|].
  destruct (outcome (m s)) as [a|e] eqn:Ho; [|done]. intros _. by eapply Hex.
Qed.

(** The [B] calls are over when [m] is. *)
Lemma preceded_by_bind_done m f :
  (∀ s, preceded_by A B (trace (m s))) → (∀ a, emits (none_of B) (f a)) →
  ∀ s, preceded_by A B (trace (bind m f s)).
Proof.
  intros Hm Hf s. rewrite trace_bind. apply preceded_by_app_done; [apply Hm|].
  destruct (outcome (m s)); [apply Hf|constructor].
Qed.

Lemma guarantees_bind_l m f : guarantees A m → guarantees A (bind m f).
Proof.
  intros Hm s b. rewrite outcome_bind, trace_bind.
  destruct (outcome (m s)) as [a|e] eqn:Ho; [|done].
  intros _. apply Exists_app. left. by eapply Hm.
Qed.

Lemma guarantees_bind_r m f : (∀ a, guarantees A (f a)) → guarantees A (bind m f).
Proof.
  intros Hf s b. rewrite outcome_bind, trace_bind.
  destruct (outcome (m s)) as [a|e] eqn:Ho; [|done].
  intros Hb. apply Exists_app. right. by eapply Hf.
Qed.

Lemma guarantees_this (g : Ignitor → M Y) :
  (∀ s, guarantees A (g s)) → guarantees A (bind this g).
Proof. intros Hg s b. rewrite bind_this. apply Hg. Qed.

Lemma guarantees_call ev : A ev = true → guarantees A (call ev).
Proof. intros Hev s a _. by apply Exists_cons_hd. Qed.

Lemma guarantees_throw e : guarantees A (@throw Y e).
Proof. by intros s a. Qed.



End Order.

(** Discharges [emits (none_of B) m] by walking through [m]. *)
Ltac no_call := by (apply hoare_emits; hoare_auto).

(** Steps over a method that makes no [B] call. *)
Ltac skip_step :=
  first [apply all_before_bind_r | apply preceded_by_bind_r];
  [no_call|intros ? ?; cbv beta].

(** *** The calls each method can make *)

Section Alphabets.
Context (w : World).

Lemma _require_emits p o : emits (only is_require) (_require w p o).
Proof. apply hoare_emits. unfold _require. hoare_auto. Qed.

Lemma _loadRcFile_emits : emits (only is_require) (_loadRcFile w).
Proof. apply hoare_emits. unfold _loadRcFile. hoare_auto. Qed.

Lemma _loadAppFile_emits : emits (only is_require) (_loadAppFile w).
Proof. apply hoare_emits. unfold _loadAppFile. hoare_auto. Qed.

Lemma _instantiateIoCContainer_emits :
  emits (only is_new_ioc) _instantiateIoCContainer.
Proof. apply hoare_emits. unfold _instantiateIoCContainer. hoare_auto. Qed.

Lemma _bindHelpers_emits : emits (only is_helpers) _bindHelpers.
Proof. apply hoare_emits. unfold _bindHelpers, on_ioc. hoare_auto. Qed.

Lemma register_emits l : emits (only is_register) (register w l).
Proof. apply hoare_emits. unfold register. hoare_auto. Qed.

Lemma boot_emits l : emits (only is_boot) (boot w l).
Proof. apply hoare_emits. unfold boot. hoare_auto. Qed.

Lemma _registerAutoloads_emits : emits (only is_autoload) _registerAutoloads.
Proof. apply hoare_emits. unfold _registerAutoloads, on_ioc. hoare_auto. Qed.

Lemma _preloadFiles_emits : emits (only is_require) (_preloadFiles w).
Proof. apply hoare_emits. unfold _preloadFiles. hoare_auto. Qed.

End Alphabets.

(** ** The module loader *)

Lemma indexOf_not_found (c : option string) :
  (-1 <? indexOf ["MODULE_NOT_FOUND"; "ENOENT"] c)%Z = true ↔
  c = Some "MODULE_NOT_FOUND" ∨ c = Some "ENOENT".
Proof.
  destruct c as [c|]; simpl; [|split; [done|by intros [|]]].
  destruct (String.eqb_spec "MODULE_NOT_FOUND" c) as [Hm|Hm].
  { subst c. split; [by left|done]. }
  destruct (String.eqb_spec "ENOENT" c) as [He|He].
  { subst c. split; [by right|done]. }
  split; [done|]. intros [[= E]|[= E]]; congruence.
Qed.

Lemma _require_outcome w filePath optional s :
  outcome (_require w filePath optional s) =
    match tsRequire w filePath (typescript s) with
    | Ok v => Ok (Some v)
    | Throw e =>
        if (-1 <? indexOf ["MODULE_NOT_FOUND"; "ENOENT"] (code e))%Z && optional
        then Ok None else Throw e
    end.
Proof.
  unfold _require. rewrite bind_this, outcome_bind. simpl.
  destruct (tsRequire w filePath (typescript s)) as [v|e]; [done|].
  by destruct (_ && _).
Qed.

Lemma _require_trace w filePath optional s :
  trace (_require w filePath optional s) = [TsRequire filePath (typescript s)].
Proof.
  unfold _require. rewrite bind_this, trace_bind. simpl.
  destruct (tsRequire w filePath (typescript s)) as [v|e]; [done|].
  by destruct (_ && _).
Qed.

Lemma _require_instance w filePath optional s :
  instance (_require w filePath optional s) = s.
Proof.
  unfold _require. rewrite bind_this, instance_bind. simpl.
  destruct (tsRequire w filePath (typescript s)) as [v|e]; [done|].
  by destruct (_ && _).
Qed.


(** ** The rc file *)

Lemma _require_run w filePath optional s :
  _require w filePath optional s =
    (outcome (_require w filePath optional s), s, [TsRequire filePath (typescript s)]).
Proof.
  pose proof (_require_trace w filePath optional s) as Ht.
  pose proof (_require_instance w filePath optional s) as Hs.
  destruct (_require w filePath optional s) as [[r s'] t].
  unfold trace, instance, outcome in *; simpl in *. by subst.
Qed.

Lemma _loadRcFile_ok w s v :
  outcome (_require w (rcPath s) true s) = Ok v →
  _loadRcFile w s =
    (Ok (), rc_applied (or_else (asRcFile <$> v) RcFile.empty) s,
     [TsRequire (rcPath s) (typescript s)]).
Proof.
  intros Hv. unfold _loadRcFile. rewrite bind_this.
  unfold bind at 1. fold (rcPath s). rewrite _require_run, Hv. done.
Qed.

Lemma _loadRcFile_throw w s e :
  outcome (_require w (rcPath s) true s) = Throw e →
  _loadRcFile w s = (Throw e, s, [TsRequire (rcPath s) (typescript s)]).
Proof.
  intros Hv. unfold _loadRcFile. rewrite bind_this.
  unfold bind at 1. fold (rcPath s). rewrite _require_run, Hv. done.
Qed.

Lemma _loadRcFile_loaded w s rc :
  tsRequire w (rcPath s) (typescript s) = Ok (JsRcFile rc) →
  _loadRcFile w s = (Ok (), rc_applied rc s, [TsRequire (rcPath s) (typescript s)]).
Proof.
  intros Hrc. apply (_loadRcFile_ok w s (Some (JsRcFile rc))).
  by rewrite _require_outcome, Hrc.
Qed.

Lemma merge_defaults_lookup (d : gmap string string) (o : option (gmap string string)) k :
  merge ∅ [Some d; o] !! k =
    match o ≫= (.!! k) with
    | Some v => Some v
    | None => d !! k
    end.
Proof.
  unfold merge. cbn [foldl]. rewrite (right_id_L ∅ (∪) d).
  destruct o as [m|]; simpl; [|done].
  destruct (m !! k) as [v|] eqn:Hk.
  - by apply lookup_union_Some_l.
  - by rewrite lookup_union_r.
Qed.

Lemma merge_defaults_None (d : gmap string string) : merge ∅ [Some d; None] = d.
Proof. unfold merge. cbn [foldl]. by rewrite (right_id_L ∅ (∪) d). Qed.

(** C8.  For every rc file, the resolved directory map holds the path of
    the rc file for every identifier the file specifies and the built-in
    default for every identifier it omits; when the file has no
    [directories] at all the resolved map is the built-in defaults. *)
Theorem directories_merged_over_defaults w s rc :
  tsRequire w (rcPath s) (typescript s) = Ok (JsRcFile rc) →
  ∃ resolved,
    directories (instance (_loadRcFile w s)) = Some resolved ∧
    (∀ k v, RcFile.directories rc ≫= (.!! k) = Some v → resolved !! k = Some v) ∧
    (∀ k, RcFile.directories rc ≫= (.!! k) = None →
          resolved !! k = DEFAULTS.directories !! k) ∧
    (RcFile.directories rc = None → resolved = DEFAULTS.directories).
Proof.
  intros Hrc. rewrite (_loadRcFile_loaded w s rc Hrc).
  eexists. split; [done|]. split_and!.
  - intros k v Hk. by rewrite merge_defaults_lookup, Hk.
  - intros k Hk. by rewrite merge_defaults_lookup, Hk.
  - intros ->. apply merge_defaults_None.
Qed.

Lemma directories_merged_over_defaults_witness :
  ∃ resolved,
    directories (instance (_loadRcFile Sample.custom_project (new_Ignitor "/srv")))
      = Some resolved ∧
    resolved !! "start" = Some "./boot" ∧ resolved !! "config" = Some "./config".
Proof.
  destruct (directories_merged_over_defaults Sample.custom_project
    (new_Ignitor "/srv") Sample.rc_custom) as (resolved & Hres & Hrc & Hdef & _).
  { reflexivity. }
  exists resolved. split; [exact Hres|]. split.
  - apply Hrc. reflexivity.
  - rewrite Hdef; reflexivity.
Defined.

(** C5, as the specification words it, fails on an rc file whose
    [autoloads] is the empty object: the empty object is kept, the
    default [App -> ./app] is not put in its place. *)
Lemma autoloads_empty_object_kept :
  autoloads (instance (_loadRcFile Sample.empty_autoloads_project (new_Ignitor "/srv")))
    = Some ∅ ∧
  autoloads (instance (_loadRcFile Sample.empty_autoloads_project (new_Ignitor "/srv")))
    ≠ Some (autoloads_as_specified Sample.rc_empty_autoloads).
Proof.
  rewrite (_loadRcFile_loaded _ _ Sample.rc_empty_autoloads) by reflexivity.
  split; [reflexivity|].
  intros H. apply (f_equal (λ o, o ≫= (.!! "App"))) in H.
  vm_compute in H. discriminate.
Qed.

(** C5, amended.  For every rc file, the resolved autoload map is the
    [autoloads] value of the file whenever the file has one, be it empty
    or not, and never a merge with the default; it is the single default
    mapping [App -> ./app] when the file has none. *)
Theorem autoloads_replace_default w s rc :
  tsRequire w (rcPath s) (typescript s) = Ok (JsRcFile rc) →
  (∀ a, RcFile.autoloads rc = Some a →
        autoloads (instance (_loadRcFile w s)) = Some a) ∧
  (RcFile.autoloads rc = None →
        autoloads (instance (_loadRcFile w s)) = Some {[ "App" := "./app" ]}).
Proof.
  intros Hrc. rewrite (_loadRcFile_loaded w s rc Hrc).
  unfold instance, rc_applied; simpl.
  split; [intros a Ha|intros Ha]; by rewrite Ha.
Qed.

Lemma autoloads_replace_default_witness :
  autoloads (instance (_loadRcFile Sample.custom_project (new_Ignitor "/srv")))
    = Some {[ "Lib" := "./lib" ]}.
Proof.
  apply (autoloads_replace_default Sample.custom_project
    (new_Ignitor "/srv") Sample.rc_custom); reflexivity.
Defined.

(** ** The compiled-mode flag *)

Lemma bind_assoc {A B C} (m : M A) (f : A → M B) (g : B → M C) s :
  bind (bind m f) g s = bind m (λ a, bind (f a) g) s.
Proof.
  unfold bind. destruct (m s) as [[[a|e] s1] t1]; [|done].
  destruct (f a s1) as [[[b|e] s2] t2]; [|done].
  destruct (g b s2) as [[r s3] t3]. by rewrite app_assoc.
Qed.

Ltac hoare_flag :=
  hoare_with ltac:(first [intros ? ? [= <- <-]; assumption | done]).

Lemma startHttpServer_run w cb s :
  startHttpServer w cb s =
    try_catch (bind (_loadRcFile w) (λ _, bind (after_rc w) (λ _, launch w cb)))
              on_failure (set_intent "http" s).
Proof.
  unfold startHttpServer. unfold bind at 1, assign. simpl.
  set (s' := set_intent "http" s).
  transitivity (try_catch (bind (_bootstrap w) (λ _, launch w cb)) on_failure s').
  - by destruct (try_catch _ _ s') as [[r s2] t2].
  - unfold try_catch, _bootstrap. by rewrite bind_assoc.
Qed.

Lemma on_failure_trace e s : trace (on_failure e s) = [ConsoleLog e; ProcessExit 1].
Proof. done. Qed.

(** Once the flag is resolved, nothing in the rest of the start-up
    changes it, and every module load passes it on. *)
Lemma after_rc_flag_kept w cb b :
  hoare (flag_is b) (loads_with b) (bind (after_rc w) (λ _, launch w cb)).
Proof. unfold flag_is, after_rc, launch. hoare_flag. Qed.



(** ** Preloads *)



Section PreloadLoop.
Context (w : World) (s : Ignitor).






End PreloadLoop.

Lemma required_loads (l : list (path * option bool)) :
  required (map (λ x, TsRequire x.1 x.2) l) = l.
Proof. induction l as [|[p ts] l IH]; simpl; [done|]. by rewrite IH. Qed.






(** ** Providers *)

Lemma set_ioc_set_ioc c c' s : set_ioc c' (set_ioc c s) = set_ioc c' s.
Proof. done. Qed.

Lemma validation_run e start s :
  forEach ["providers"; "aceProviders"; "commands"] (λ prop,
    if has_export e prop then ret ()
    else throw (Exception (missing_export_message prop start) 500
                          "E_MISSING_APP_ESSENTIALS")) s =
  (match missing_export e with
   | None => Ok ()
   | Some prop => Throw (Exception (missing_export_message prop start) 500
                                   "E_MISSING_APP_ESSENTIALS")
   end, s, []).
Proof. by destruct e as [[p|] [a|] [c|] al]. Qed.

Lemma missing_export_None e :
  missing_export e = None ↔
  is_Some (App.providers e) ∧ is_Some (App.aceProviders e) ∧ is_Some (App.commands e).
Proof.
  destruct e as [[p|] [a|] [c|] al]; simpl;
    (split; [try done|try by intros (? & ? & ?)]);
    intros (Hp & Ha & Hc); by (inversion Hp || inversion Ha || inversion Hc).
Qed.

Lemma _loadAppFile_run w s d start e :
  directories s = Some d → d !! "start" = Some start →
  tsRequire w (appFile s start) (typescript s) = Ok (JsAppExports e) →
  _loadAppFile w s =
    (match missing_export e with
     | None => Ok e
     | Some prop => Throw (Exception (missing_export_message prop start) 500
                                     "E_MISSING_APP_ESSENTIALS")
     end, s, [TsRequire (appFile s start) (typescript s)]).
Proof.
  intros Hd Hstart He. unfold _loadAppFile. rewrite bind_this, Hd, Hstart.
  unfold bind at 1. unfold ret at 1. unfold bind at 1. fold (appFile s start).
  rewrite _require_run, _require_outcome, He.
  cbn [mbind option_bind asAppExports].
  unfold bind at 1. unfold ret at 1. unfold bind at 1. rewrite validation_run.
  by destruct (missing_export e).
Qed.

Lemma set_ioc_id s c : ioc s = Some c → set_ioc c s = s.
Proof. destruct s. simpl. by intros ->. Qed.

Lemma bind_step {A B} (m : M A) (f : A → M B) s r s1 t1 :
  m s = (r, s1, t1) →
  bind m f s =
    match r with
    | Ok a => match f a s1 with (r2, s2, t2) => (r2, s2, t1 ++ t2) end
    | Throw e => (Throw e, s1, t1)
    end.
Proof. intros Hm. unfold bind. by rewrite Hm. Qed.

Lemma user_alias_loop_run l s c :
  ioc s = Some c →
  forEach l (λ '(alias, namespace),
    on_ioc (IocAlias ByUser namespace alias) (Ioc_alias namespace alias)) s =
  (Ok (), set_ioc (foldl (λ c '(alias, namespace), Ioc_alias namespace alias c) c l) s,
   map (λ '(alias, namespace), IocAlias ByUser namespace alias) l).
Proof.
  revert s c. induction l as [|[alias namespace] l IH]; intros s c Hc.
  - simpl. by rewrite set_ioc_id.
  - cbn [forEach foldl map].
    erewrite bind_step; last first.
    { unfold on_ioc. rewrite bind_this, Hc. reflexivity. }
    cbn [app]. rewrite (IH _ (Ioc_alias namespace alias c)) by done.
    by rewrite set_ioc_set_ioc.
Qed.

Lemma register_run w chosen s c :
  ioc s = Some c →
  register w chosen s =
    ((registrar_register w chosen c).1, set_ioc (registrar_register w chosen c).2 s,
     [RegistrarRegister chosen]).
Proof.
  intros Hc. unfold register. rewrite bind_this, Hc.
  destruct (registrar_register w chosen c) as [[inst|e] c1]; reflexivity.
Qed.

Lemma boot_run w inst s c :
  ioc s = Some c →
  boot w inst s =
    ((registrar_boot w inst c).1, set_ioc (registrar_boot w inst c).2 s,
     [RegistrarBoot inst c]).
Proof.
  intros Hc. unfold boot. rewrite bind_this, Hc.
  destruct (registrar_boot w inst c) as [[[]|e] c1]; reflexivity.
Qed.

Lemma _bootProviders_invalid w s d start e prop :
  directories s = Some d → d !! "start" = Some start →
  tsRequire w (appFile s start) (typescript s) = Ok (JsAppExports e) →
  missing_export e = Some prop →
  _bootProviders w s =
    (Throw (Exception (missing_export_message prop start) 500 "E_MISSING_APP_ESSENTIALS"),
     s, [NewRegistrar; TsRequire (appFile s start) (typescript s)]).
Proof.
  intros Hd Hstart He Hmiss. unfold _bootProviders.
  erewrite bind_step; [|reflexivity]. cbv iota.
  erewrite bind_step; [|by eapply _loadAppFile_run].
  by rewrite Hmiss.
Qed.

Lemma _bootProviders_run w s d start e p a c0 :
  directories s = Some d → d !! "start" = Some start → ioc s = Some c0 →
  tsRequire w (appFile s start) (typescript s) = Ok (JsAppExports e) →
  App.providers e = Some p → App.aceProviders e = Some a →
  is_Some (App.commands e) →
  let chosen := if strict_eq (_intent s) (Some "ace") then p ++ a else p in
  let reg := registrar_register w chosen c0 in
  let c2 := match App.aliases e with
            | Some al => user_aliases_applied al reg.2
            | None => reg.2
            end in
  _bootProviders w s =
    match reg.1 with
    | Throw er =>
        (Throw er, set_ioc reg.2 s,
         [NewRegistrar; TsRequire (appFile s start) (typescript s);
          RegistrarRegister chosen])
    | Ok inst =>
        ((registrar_boot w inst c2).1, set_ioc (registrar_boot w inst c2).2 s,
         [NewRegistrar; TsRequire (appFile s start) (typescript s);
          RegistrarRegister chosen]
         ++ match App.aliases e with
            | Some al => user_alias_events al
            | None => []
            end
         ++ [RegistrarBoot inst c2])
    end.
Proof.
  intros Hd Hstart Hc He Hp Ha Hcmd chosen reg c2.
  assert (missing_export e = None) as Hmiss.
  { apply missing_export_None. by rewrite Hp, Ha. }
  unfold _bootProviders.
  erewrite bind_step; [|reflexivity]. cbv iota.
  erewrite bind_step; [|by eapply _loadAppFile_run].
  rewrite Hmiss, Hp, Ha. cbv iota.
  erewrite bind_step; [|reflexivity]. cbv iota.
  erewrite bind_step; [|reflexivity]. cbv iota.
  rewrite bind_this. fold chosen.
  erewrite bind_step; [|by apply register_run]. fold reg.
  destruct reg.1 as [inst|er]; [|reflexivity].
  assert (ioc (set_ioc reg.2 s) = Some reg.2) as Hc1 by done.
  destruct (App.aliases e) as [al|].
  - erewrite bind_step; [|by apply user_alias_loop_run]. cbv iota.
    erewrite boot_run by done. by rewrite !set_ioc_set_ioc.
  - erewrite bind_step; [|reflexivity]. cbv iota.
    erewrite boot_run by done. by rewrite !set_ioc_set_ioc.
Qed.

Lemma aliases_foldl_lookup (l : list (string * string)) c k :
  NoDup l.*1 →
  ioc_aliases (foldl (λ c '(alias, namespace), Ioc_alias namespace alias c) c l) !! k =
    match (list_to_map l : gmap string string) !! k with
    | Some v => Some v
    | None => ioc_aliases c !! k
    end.
Proof.
  revert c. induction l as [|[alias namespace] l IH]; intros c Hnd; [done|].
  apply NoDup_cons in Hnd as [Hnotin Hnd]. cbn [foldl]. rewrite IH by done.
  cbn [list_to_map foldr uncurry]. simpl.
  destruct (decide (alias = k)) as [->|Hne].
  - rewrite lookup_insert_eq.
    by rewrite (not_elem_of_list_to_map_1 _ _ Hnotin), lookup_insert_eq.
  - rewrite (lookup_insert_ne (list_to_map l)) by done.
    destruct (list_to_map l !! k); [done|]. by rewrite lookup_insert_ne.
Qed.

(** The user aliases win over whatever the container held. *)
Lemma user_aliases_applied_lookup al c k :
  ioc_aliases (user_aliases_applied al c) !! k =
    match al !! k with
    | Some v => Some v
    | None => ioc_aliases c !! k
    end.
Proof.
  unfold user_aliases_applied.
  rewrite aliases_foldl_lookup by apply NoDup_fst_map_to_list.
  by rewrite list_to_map_to_list.
Qed.

Lemma user_alias_events_elem al alias namespace :
  al !! alias = Some namespace → IocAlias ByUser namespace alias ∈ user_alias_events al.
Proof.
  intros Hal. unfold user_alias_events. apply list_elem_of_fmap.
  exists (alias, namespace). split; [done|]. by apply elem_of_map_to_list.
Qed.

Lemma user_alias_events_only al : Forall (only is_user_alias) (user_alias_events al).
Proof. unfold user_alias_events. apply Forall_fmap, Forall_true. by intros []. Qed.

Lemma registered_none t : Forall (none_of is_register) t → registered t = [].
Proof.
  induction 1 as [|e t He _ IH]; [done|].
  unfold registered in *. cbn [omap list_omap]. by destruct e.
Qed.

Lemma registered_cons e t :
  registered (e :: t) =
    match e with RegistrarRegister l => [l] | _ => [] end ++ registered t.
Proof. by destruct e. Qed.

Lemma registered_app t1 t2 : registered (t1 ++ t2) = registered t1 ++ registered t2.
Proof. apply omap_app. Qed.

(** C2.  During provider bootstrap every alias of the descriptor's
    [aliases] map is applied to the container after the chosen providers
    have been registered and before the providers are booted: the calls
    are the registration, then one [alias] call per user alias, then the
    boot.  The container the boot finds therefore resolves every user
    alias to the user's namespace, whatever alias the providers
    registered under that name, and keeps every other alias as the
    registration left it. *)
Theorem user_aliases_after_register_before_boot w s d start e p a c0 al inst c1 :
  directories s = Some d → d !! "start" = Some start → ioc s = Some c0 →
  tsRequire w (appFile s start) (typescript s) = Ok (JsAppExports e) →
  App.providers e = Some p → App.aceProviders e = Some a →
  is_Some (App.commands e) → App.aliases e = Some al →
  let chosen := if strict_eq (_intent s) (Some "ace") then p ++ a else p in
  registrar_register w chosen c0 = (Ok inst, c1) →
  ∃ c2,
    trace (_bootProviders w s) =
      [NewRegistrar; TsRequire (appFile s start) (typescript s); RegistrarRegister chosen]
      ++ user_alias_events al ++ [RegistrarBoot inst c2] ∧
    (∀ alias namespace, al !! alias = Some namespace →
       IocAlias ByUser namespace alias ∈ user_alias_events al ∧
       ioc_aliases c2 !! alias = Some namespace) ∧
    (∀ alias, al !! alias = None → ioc_aliases c2 !! alias = ioc_aliases c1 !! alias) ∧
    all_before is_register is_user_alias (trace (_bootProviders w s)) ∧
    all_before is_user_alias is_boot (trace (_bootProviders w s)).
Proof.
  intros Hd Hstart Hc He Hp Ha Hcmd Hal chosen Hreg.
  rewrite (_bootProviders_run w s d start e p a c0) by done.
  fold chosen. rewrite Hreg, Hal. cbn [fst snd]. unfold trace; cbn [snd].
  exists (user_aliases_applied al c1). split_and!.
  - done.
  - intros alias namespace Hk. split; [by apply user_alias_events_elem|].
    by rewrite user_aliases_applied_lookup, Hk.
  - intros alias Hk. by rewrite user_aliases_applied_lookup, Hk.
  - apply all_before_app.
    + apply all_before_none_r. by repeat constructor.
    + apply all_before_none_l, Forall_app. split; [|by repeat constructor].
      eapply Forall_impl; [apply user_alias_events_only|]. by intros [].
    + left. by repeat constructor.
  - apply all_before_app.
    + apply all_before_none_l. by repeat constructor.
    + apply all_before_app.
      * apply all_before_none_r.
        eapply Forall_impl; [apply user_alias_events_only|]. by intros [].
      * apply all_before_none_l. by repeat constructor.
      * right. by repeat constructor.
    + left. by repeat constructor.
Qed.

Lemma user_aliases_after_register_before_boot_witness :
  ∃ c2,
    trace (_bootProviders Sample.aliases_project
             (Sample.before_providers Sample.aliases_project "http")) =
      [NewRegistrar; TsRequire ["/srv"; "./start"; "app"] (Some false);
       RegistrarRegister ["A"; "B"]]
      ++ user_alias_events {[ "X" := "B" ]} ++ [RegistrarBoot ["A"; "B"] c2] ∧
    ioc_aliases c2 !! "X" = Some "B" ∧
    ioc_aliases c2 !! "Y" = Some "B".
Proof.
  destruct (user_aliases_after_register_before_boot Sample.aliases_project
    (Sample.before_providers Sample.aliases_project "http")
    (merge ∅ [Some DEFAULTS.directories; None]) "./start" Sample.app_ab
    ["A"; "B"] ["C"] (helpers_bound (Some false)) {[ "X" := "B" ]} ["A"; "B"]
    (Ioc_alias "B" "Y" (Ioc_alias "A" "X" (helpers_bound (Some false)))))
    as (c2 & Ht & Huser & Hother & _); try reflexivity.
  - by eexists.
  - exists c2. split; [exact Ht|]. split.
    + apply Huser. reflexivity.
    + rewrite Hother; reflexivity.
Defined.

(** ** The bootstrap sequence *)

Lemma _bootstrap_run w s v :
  outcome (_require w (rcPath s) true s) = Ok v →
  let rcFile := or_else (asRcFile <$> v) RcFile.empty in
  _bootstrap w s =
    match after_helpers w (prepared rcFile s) with
    | (r, s', t) => (r, s', prepared_trace rcFile s ++ t)
    end.
Proof.
  intros Hv rcFile. unfold _bootstrap.
  erewrite bind_step; [|by apply _loadRcFile_ok]. cbv iota. fold rcFile.
  erewrite bind_step; [|reflexivity]. cbv iota.
  erewrite bind_step; [|reflexivity]. cbv iota.
  fold (after_helpers w). unfold prepared.
  by destruct (after_helpers w _) as [[r s'] t].
Qed.

Lemma _bootstrap_throw w s e :
  outcome (_require w (rcPath s) true s) = Throw e →
  _bootstrap w s = (Throw e, s, [TsRequire (rcPath s) (typescript s)]).
Proof.
  intros Hv. unfold _bootstrap.
  erewrite bind_step; [|by apply _loadRcFile_throw]. done.
Qed.

Lemma after_providers_no_register w :
  emits (none_of is_register) (_registerAutoloads ;;; _preloadFiles w).
Proof.
  apply hoare_emits, hoare_bind; [|intros _]; apply hoare_emits.
  - eapply emits_mono; [|apply _registerAutoloads_emits]. by intros [].
  - eapply emits_mono; [|apply _preloadFiles_emits]. by intros [].
Qed.

Lemma prepared_has_start rcFile s :
  is_Some (directories (prepared rcFile s) ≫= (.!! "start")).
Proof.
  unfold prepared, rc_applied, set_ioc, set_preloads, set_typescript, set_autoloads,
    set_directories.
  cbn [directories mbind option_bind]. rewrite merge_defaults_lookup.
  destruct (_ ≫= _); by eexists.
Qed.

(** C3.  For every app descriptor with its three required exports, the
    registrar is handed one provider list in the whole bootstrap: the
    descriptor's [providers] when the run intent is [http], and
    [providers] followed by [aceProviders], nothing removed and nothing
    reordered, when the run intent is [ace]. *)
Theorem registered_providers_by_intent w s v start e p a :
  outcome (_require w (rcPath s) true s) = Ok v →
  let s1 := prepared (or_else (asRcFile <$> v) RcFile.empty) s in
  directories s1 ≫= (.!! "start") = Some start →
  tsRequire w (appFile s1 start) (typescript s1) = Ok (JsAppExports e) →
  App.providers e = Some p → App.aceProviders e = Some a →
  is_Some (App.commands e) →
  (_intent s = Some "http" → registered (trace (_bootstrap w s)) = [p]) ∧
  (_intent s = Some "ace" → registered (trace (_bootstrap w s)) = [p ++ a]).
Proof.
  intros Hv s1 Hstart He Hp Ha Hcmd.
  assert (∃ d, directories s1 = Some d ∧ d !! "start" = Some start) as (d & Hd & Hds).
  { destruct (directories s1) as [d|]; [by exists d|done]. }
  assert (registered (trace (_bootstrap w s)) =
            [if strict_eq (_intent s) (Some "ace") then p ++ a else p]) as Hreg.
  { rewrite (_bootstrap_run w s v Hv). fold s1.
    pose proof (trace_bind (_bootProviders w)
                  (λ _, _registerAutoloads ;;; _preloadFiles w) s1) as Ht.
    fold (after_helpers w) in Ht.
    destruct (after_helpers w s1) as [[r s'] t]. unfold trace at 1 in Ht.
    simpl in Ht. subst t. unfold trace at 1. cbn [snd].
    rewrite !registered_app.
    rewrite (registered_none (match outcome _ with Ok _ => _ | Throw _ => _ end));
      last first.
    { destruct (outcome (_bootProviders w s1)); [|constructor].
      apply after_providers_no_register. }
    rewrite (_bootProviders_run w s1 d start e p a (helpers_bound (typescript s1)))
      by done.
    change (_intent s1) with (_intent s).
    destruct (registrar_register w _ _).1; unfold trace; cbn [snd].
    - rewrite (registered_app [_; _; _]), (registered_none (_ ++ _)); [done|].
      apply Forall_app. split; [|by repeat constructor].
      destruct (App.aliases e); [|constructor].
      eapply Forall_impl; [apply user_alias_events_only|]. by intros [].
    - done. }
  rewrite Hreg. split; by intros ->.
Qed.

Lemma registered_providers_by_intent_witness :
  registered (trace (_bootstrap Sample.aliases_project
                       (set_intent "http" (new_Ignitor "/srv")))) = [["A"; "B"]] ∧
  registered (trace (_bootstrap Sample.aliases_project
                       (set_intent "ace" (new_Ignitor "/srv")))) = [["A"; "B"; "C"]].
Proof.
  split.
  - apply (registered_providers_by_intent Sample.aliases_project
             (set_intent "http" (new_Ignitor "/srv")) None "./start" Sample.app_ab
             ["A"; "B"] ["C"]); try reflexivity. by eexists.
  - apply (registered_providers_by_intent Sample.aliases_project
             (set_intent "ace" (new_Ignitor "/srv")) None "./start" Sample.app_ab
             ["A"; "B"] ["C"]); try reflexivity. by eexists.
Defined.

(** C4.  For every entry descriptor in which [providers],
    [aceProviders] or [commands] is missing or falsy, the bootstrap fails
    with the exception [E_MISSING_APP_ESSENTIALS] whose message names a
    missing export (the first missing one in that order) and the file
    [<start directory>/app], and no provider list has been handed to the
    registrar when it fails. *)
Theorem missing_export_fails_before_registration w s v start e :
  outcome (_require w (rcPath s) true s) = Ok v →
  let s1 := prepared (or_else (asRcFile <$> v) RcFile.empty) s in
  directories s1 ≫= (.!! "start") = Some start →
  tsRequire w (appFile s1 start) (typescript s1) = Ok (JsAppExports e) →
  App.providers e = None ∨ App.aceProviders e = None ∨ App.commands e = None →
  ∃ prop,
    prop ∈ ["providers"; "aceProviders"; "commands"] ∧
    has_export e prop = false ∧
    missing_export e = Some prop ∧
    outcome (_bootstrap w s) =
      Throw (Exception ("export `" +:+ prop +:+ "` from `" +:+ start +:+ "/app` file")
                       500 "E_MISSING_APP_ESSENTIALS") ∧
    registered (trace (_bootstrap w s)) = [].
Proof.
  intros Hv s1 Hstart He Hmissing.
  assert (∃ d, directories s1 = Some d ∧ d !! "start" = Some start) as (d & Hd & Hds).
  { destruct (directories s1) as [d|]; [by exists d|done]. }
  assert (∃ prop, missing_export e = Some prop) as [prop Hprop].
  { destruct (missing_export e) as [prop|] eqn:Hm; [by exists prop|].
    apply missing_export_None in Hm as ([? Hp] & [? Ha] & [? Hc]).
    destruct Hmissing as [?|[?|?]]; congruence. }
  exists prop.
  pose proof Hprop as Hfind. unfold missing_export in Hfind.
  apply find_some in Hfind as [Hin Hhas].
  split; [by apply list_elem_of_In|]. split; [by apply negb_true_iff|].
  split; [done|].
  rewrite (_bootstrap_run w s v Hv). fold s1. unfold after_helpers.
  erewrite bind_step; [|by eapply _bootProviders_invalid].
  done.
Qed.

Lemma missing_export_fails_before_registration_witness :
  ∃ prop,
    prop ∈ ["providers"; "aceProviders"; "commands"] ∧
    has_export Sample.app_without_commands prop = false ∧
    missing_export Sample.app_without_commands = Some prop ∧
    outcome (_bootstrap Sample.incomplete_project (set_intent "http" (new_Ignitor "/srv")))
      = Throw (Exception ("export `" +:+ prop +:+ "` from `" +:+ "./start" +:+ "/app` file")
                         500 "E_MISSING_APP_ESSENTIALS") ∧
    registered (trace (_bootstrap Sample.incomplete_project
                         (set_intent "http" (new_Ignitor "/srv")))) = [].
Proof.
  apply (missing_export_fails_before_registration Sample.incomplete_project
           (set_intent "http" (new_Ignitor "/srv")) None "./start"
           Sample.app_without_commands); try reflexivity.
  right. right. reflexivity.
Defined.

(** ** The ordering contract *)

Lemma on_ioc_guarantees (A : event → bool) ev f :
  A ev = true → guarantees A (on_ioc ev f).
Proof.
  intros Hev. unfold on_ioc. apply guarantees_this. intros s.
  destruct (ioc s); [|apply guarantees_throw].
  by apply guarantees_bind_l, guarantees_call.
Qed.

Lemma _bindHelpers_guarantees_singleton : guarantees is_helpers_singleton _bindHelpers.
Proof. by apply guarantees_bind_l, on_ioc_guarantees. Qed.

Lemma _bindHelpers_guarantees_alias : guarantees is_helpers_alias _bindHelpers.
Proof. apply guarantees_bind_r. intros _. by apply on_ioc_guarantees. Qed.

Lemma register_guarantees w chosen : guarantees is_register (register w chosen).
Proof.
  unfold register. apply guarantees_this. intros s.
  destruct (ioc s); [|apply guarantees_throw].
  by apply guarantees_bind_l, guarantees_call.
Qed.

Lemma boot_guarantees w inst : guarantees is_boot (boot w inst).
Proof.
  unfold boot. apply guarantees_this. intros s.
  destruct (ioc s); [|apply guarantees_throw].
  by apply guarantees_bind_l, guarantees_call.
Qed.

Lemma _bootProviders_guarantees_boot w : guarantees is_boot (_bootProviders w).
Proof.
  unfold _bootProviders.
  do 4 (apply guarantees_bind_r; intros ?).
  apply guarantees_this; intros s.
  do 2 (apply guarantees_bind_r; intros ?).
  apply boot_guarantees.
Qed.

Section BootstrapOrder.
Context (w : World).

Lemma helpers_before (A B : event → bool) :
  guarantees A _bindHelpers →
  emits (none_of B) (_loadRcFile w) →
  emits (none_of B) _instantiateIoCContainer →
  emits (none_of B) _bindHelpers →
  ∀ s, preceded_by A B (trace (_bootstrap w s)).
Proof.
  intros HA Hrc Hioc Hhelpers. unfold _bootstrap.
  apply preceded_by_bind_r; [done|intros _].
  apply preceded_by_bind_r; [done|intros _].
  apply preceded_by_bind_l.
  - intros s. by apply preceded_by_none, Hhelpers.
  - apply HA.
Qed.

Lemma _bootProviders_alias_preceded s :
  preceded_by is_register is_user_alias (trace (_bootProviders w s)).
Proof.
  unfold _bootProviders.
  do 4 skip_step. rewrite bind_this.
  apply preceded_by_bind_l.
  - intros s'. apply preceded_by_none. revert s'. no_call.
  - apply register_guarantees.
Qed.

Lemma _bootProviders_register_before_alias s :
  all_before is_register is_user_alias (trace (_bootProviders w s)).
Proof.
  unfold _bootProviders.
  do 4 skip_step. rewrite bind_this.
  skip_step. apply all_before_none_l.
  match goal with |- Forall _ (trace (_ ?s)) => revert s end. no_call.
Qed.

Lemma _bootProviders_alias_before_boot s :
  all_before is_user_alias is_boot (trace (_bootProviders w s)).
Proof.
  unfold _bootProviders.
  do 4 skip_step. rewrite bind_this.
  do 2 skip_step. apply all_before_none_l.
  match goal with |- Forall _ (trace (_ ?s)) => revert s end. no_call.
Qed.

End BootstrapOrder.

(** The start-up of a project without rc file, with providers [A] and
    [B] that alias [X] and [Y] for themselves and a user alias for [X]. *)
Example sample_bootstrap_trace :
  trace (_bootstrap Sample.aliases_project (set_intent "http" (new_Ignitor "/srv"))) =
    [ TsRequire ["/srv"; ".adonisrc.json"] None;
      NewIoc (Some false);
      IocSingleton "Adonis/Src/Helpers";
      IocAlias ByHelpers "Adonis/Src/Helpers" "Helpers";
      NewRegistrar;
      TsRequire ["/srv"; "./start"; "app"] (Some false);
      RegistrarRegister ["A"; "B"];
      IocAlias ByUser "B" "X";
      RegistrarBoot ["A"; "B"]
        (Ioc_alias "B" "X"
           (Ioc_alias "B" "Y" (Ioc_alias "A" "X" (helpers_bound (Some false)))));
      IocAutoload ["/srv"; "./app"] "App" ].
Proof. vm_compute. reflexivity. Qed.

(** C1, as the specification words it, fails on its last part: in a
    project without rc file and with providers [A] and [B], the
    providers are booted (call 8) before the autoload of [App] is
    registered (call 9). *)
Lemma autoloads_registered_after_boot :
  ¬ ordering_as_specified
      (trace (_bootstrap Sample.aliases_project (set_intent "http" (new_Ignitor "/srv")))).
Proof.
  intros (_ & _ & _ & _ & _ & _ & Hauto).
  set (t := trace _) in Hauto.
  assert (t !! 9 = Some (IocAutoload ["/srv"; "./app"] "App")) as H9
    by (vm_compute; reflexivity).
  assert (is_boot <$> t !! 8 = Some true) as H8 by (vm_compute; reflexivity).
  destruct (t !! 8) as [b|] eqn:Hb; [|done]. injection H8 as H8.
  specialize (Hauto 9 8 _ b H9 Hb eq_refl H8). lia.
Qed.

(** C1, amended.  In every bootstrap run the helpers are bound to the
    container before any provider is registered or booted, the user
    aliases are applied after the provider registration and before the
    providers boot, and the autoloads are registered only after the
    providers have booted. *)
Theorem bootstrap_ordering_contract w s : ordering_contract (trace (_bootstrap w s)).
Proof.
  unfold ordering_contract. split_and!.
  - apply helpers_before; [apply _bindHelpers_guarantees_singleton|no_call..].
  - apply helpers_before; [apply _bindHelpers_guarantees_alias|no_call..].
  - apply helpers_before; [apply _bindHelpers_guarantees_alias|no_call..].
  - unfold _bootstrap. do 3 skip_step. apply preceded_by_bind_done.
    + apply _bootProviders_alias_preceded.
    + intros _. no_call.
  - unfold _bootstrap. do 3 skip_step. apply all_before_bind_l.
    + apply _bootProviders_register_before_alias.
    + intros _. no_call.
  - unfold _bootstrap. do 3 skip_step. apply all_before_bind_l.
    + apply _bootProviders_alias_before_boot.
    + intros _. no_call.
  - unfold _bootstrap. do 3 skip_step. apply preceded_by_bind_l.
    + intros s'. apply preceded_by_none. revert s'. no_call.
    + apply _bootProviders_guarantees_boot.
  - unfold _bootstrap. do 4 skip_step. apply all_before_none_l.
    match goal with |- Forall _ (trace (_ ?s)) => revert s end. no_call.
Qed.

(** ** The HTTP launch *)

Section Launch.
Context (w : World) (s : Ignitor) (c : Ioc) (srv rtr env : object).
Context (Hc : ioc s = Some c).
Context (Hsrv : ioc_use w "Adonis/Src/Server" = Ok srv).
Context (Hrtr : ioc_use w "Adonis/Src/Route" = Ok rtr).
Context (Hcommit : router_commit w rtr = Ok ()).
Context (Hoptimize : server_optimize w srv = Ok ()).
Context (Henv : ioc_use w "Adonis/Src/Env" = Ok env).

Lemma use_run namespace s' :
  ioc s' = Some c →
  use w namespace s' = (ioc_use w namespace, s', [IocUse namespace]).
Proof.
  intros Hc'. unfold use. rewrite bind_this, Hc'.
  by destruct (ioc_use w namespace).
Qed.




End Launch.








(** * Further properties *)

(** ** The rc file, when it is missing or broken *)

(** X1.  A missing rc file is not an error: when the loader reports the
    file as not found, [_loadRcFile] returns and the instance holds the
    built-in directories, the default autoload [App -> ./app], the flag
    [false] and no preloads. *)
Theorem rc_file_missing_gives_defaults w s e :
  tsRequire w (rcPath s) (typescript s) = Throw e →
  not_found_class e →
  outcome (_loadRcFile w s) = Ok () ∧
  directories (instance (_loadRcFile w s)) = Some DEFAULTS.directories ∧
  autoloads (instance (_loadRcFile w s)) = Some {[ "App" := "./app" ]} ∧
  typescript (instance (_loadRcFile w s)) = Some false ∧
  preloads (instance (_loadRcFile w s)) = Some [].
Proof.
  intros He Hnf. apply indexOf_not_found in Hnf.
  rewrite (_loadRcFile_ok w s None) by (by rewrite _require_outcome, He, Hnf).
  unfold outcome, instance, rc_applied. cbn [fst snd fmap option_fmap option_map or_else].
  split_and!; try done.
Qed.

Lemma rc_file_missing_gives_defaults_witness :
  outcome (_loadRcFile Sample.http_project (new_Ignitor "/srv")) = Ok () ∧
  directories (instance (_loadRcFile Sample.http_project (new_Ignitor "/srv")))
    = Some DEFAULTS.directories ∧
  autoloads (instance (_loadRcFile Sample.http_project (new_Ignitor "/srv")))
    = Some {[ "App" := "./app" ]} ∧
  typescript (instance (_loadRcFile Sample.http_project (new_Ignitor "/srv")))
    = Some false ∧
  preloads (instance (_loadRcFile Sample.http_project (new_Ignitor "/srv"))) = Some [].
Proof.
  apply (rc_file_missing_gives_defaults Sample.http_project (new_Ignitor "/srv")
           Sample.not_found).
  - reflexivity.
  - left. reflexivity.
Defined.

(** X2.  A broken rc file stops the bootstrap at once: when the loader
    fails on the rc file with anything but a not-found code, [_bootstrap]
    throws that very error, has made no other call than that load (no
    container is created) and leaves the instance as it found it. *)
Theorem rc_file_broken_aborts_bootstrap w s e :
  tsRequire w (rcPath s) (typescript s) = Throw e →
  ¬ not_found_class e →
  _bootstrap w s = (Throw e, s, [TsRequire (rcPath s) (typescript s)]).
Proof.
  intros He Hnf. apply _bootstrap_throw.
  rewrite _require_outcome, He.
  destruct (_ <? _)%Z eqn:Hc; [|done].
  by apply indexOf_not_found in Hc.
Qed.

Lemma rc_file_broken_aborts_bootstrap_witness :
  _bootstrap Cases.broken_rc_project (new_Ignitor "/srv") =
    (Throw Cases.syntax_error, new_Ignitor "/srv",
     [TsRequire ["/srv"; ".adonisrc.json"] None]).
Proof.
  apply (rc_file_broken_aborts_bootstrap Cases.broken_rc_project (new_Ignitor "/srv")
           Cases.syntax_error).
  - reflexivity.
  - intros [H|H]; discriminate H.
Defined.



(** ** The entry descriptor and the providers, when something is amiss *)

Lemma _loadAppFile_throw w s d start e :
  directories s = Some d → d !! "start" = Some start →
  tsRequire w (appFile s start) (typescript s) = Throw e →
  _loadAppFile w s = (Throw e, s, [TsRequire (appFile s start) (typescript s)]).
Proof.
  intros Hd Hstart He. unfold _loadAppFile. rewrite bind_this, Hd, Hstart.
  unfold bind at 1. unfold ret at 1. unfold bind at 1. fold (appFile s start).
  rewrite _require_run, _require_outcome, He.
  by rewrite andb_false_r.
Qed.


Lemma _bootstrap_provider_failure w s v e :
  outcome (_require w (rcPath s) true s) = Ok v →
  let s1 := prepared (or_else (asRcFile <$> v) RcFile.empty) s in
  outcome (_bootProviders w s1) = Throw e →
  _bootstrap w s =
    (Throw e, instance (_bootProviders w s1),
     prepared_trace (or_else (asRcFile <$> v) RcFile.empty) s
       ++ trace (_bootProviders w s1)).
Proof.
  intros Hv s1 He. rewrite (_bootstrap_run w s v Hv). fold s1.
  unfold after_helpers, bind at 1.
  destruct (_bootProviders w s1) as [[r s2] t]. unfold outcome in He. simpl in He.
  by subst r.
Qed.



(** X5.  A missing [start/app] file is fatal: that load is not
    optional, so whatever the loader throws for it, a not-found error
    included, ends the bootstrap with that error right after the load,
    before any provider is handed to the registrar. *)
Theorem app_file_missing_is_fatal w s v start e :
  outcome (_require w (rcPath s) true s) = Ok v →
  let rcFile := or_else (asRcFile <$> v) RcFile.empty in
  let s1 := prepared rcFile s in
  directories s1 ≫= (.!! "start") = Some start →
  tsRequire w (appFile s1 start) (typescript s1) = Throw e →
  outcome (_bootstrap w s) = Throw e ∧
  trace (_bootstrap w s) =
    prepared_trace rcFile s
    ++ [NewRegistrar; TsRequire (appFile s1 start) (typescript s1)].
Proof.
  intros Hv rcFile s1 Hstart He.
  destruct (directories s1) as [d|] eqn:Hd; [|done]. simpl in Hstart.
  assert (_bootProviders w s1 =
            (Throw e, s1, [NewRegistrar; TsRequire (appFile s1 start) (typescript s1)]))
    as Hrun.
  { unfold _bootProviders.
    erewrite bind_step; [|reflexivity]. cbv iota.
    erewrite bind_step; [|by eapply _loadAppFile_throw]. done. }
  rewrite (_bootstrap_provider_failure w s v e Hv); fold rcFile s1; by rewrite Hrun.
Qed.

Lemma app_file_missing_is_fatal_witness :
  outcome (_bootstrap Cases.no_app_project (set_intent "http" (new_Ignitor "/srv")))
    = Throw Sample.not_found ∧
  trace (_bootstrap Cases.no_app_project (set_intent "http" (new_Ignitor "/srv"))) =
    [ TsRequire ["/srv"; ".adonisrc.json"] None; NewIoc (Some false);
      IocSingleton "Adonis/Src/Helpers";
      IocAlias ByHelpers "Adonis/Src/Helpers" "Helpers";
      NewRegistrar; TsRequire ["/srv"; "./start"; "app"] (Some false) ].
Proof.
  apply (app_file_missing_is_fatal Cases.no_app_project
           (set_intent "http" (new_Ignitor "/srv")) None "./start" Sample.not_found);
    reflexivity.
Defined.

(** X6.  The [aliases] export is optional: for a descriptor without
    it, no alias call is made between the registration and the boot, the
    boot finds the container exactly as the registration left it, and
    the outcome of [_bootProviders] is the outcome of the boot. *)
Theorem aliases_export_is_optional w s d start e p a c0 inst c1 :
  directories s = Some d → d !! "start" = Some start → ioc s = Some c0 →
  tsRequire w (appFile s start) (typescript s) = Ok (JsAppExports e) →
  App.providers e = Some p → App.aceProviders e = Some a →
  is_Some (App.commands e) → App.aliases e = None →
  let chosen := if strict_eq (_intent s) (Some "ace") then p ++ a else p in
  registrar_register w chosen c0 = (Ok inst, c1) →
  _bootProviders w s =
    ((registrar_boot w inst c1).1, set_ioc (registrar_boot w inst c1).2 s,
     [ NewRegistrar; TsRequire (appFile s start) (typescript s);
       RegistrarRegister chosen; RegistrarBoot inst c1 ]).
Proof.
  intros Hd Hstart Hc He Hp Ha Hcmd Hal chosen Hreg.
  rewrite (_bootProviders_run w s d start e p a c0) by done.
  fold chosen. by rewrite Hreg, Hal.
Qed.

Lemma aliases_export_is_optional_witness :
  _bootProviders Cases.no_aliases_project
    (Sample.before_providers Cases.no_aliases_project "http") =
    (Ok (), Sample.before_providers Cases.no_aliases_project "http",
     [ NewRegistrar; TsRequire ["/srv"; "./start"; "app"] (Some false);
       RegistrarRegister ["A"]; RegistrarBoot ["A"] (helpers_bound (Some false)) ]).
Proof.
  rewrite (aliases_export_is_optional Cases.no_aliases_project
    (Sample.before_providers Cases.no_aliases_project "http")
    (merge ∅ [Some DEFAULTS.directories; None]) "./start"
    Cases.app_without_aliases ["A"] []
    (helpers_bound (Some false)) ["A"] (helpers_bound (Some false)));
    try reflexivity.
  by eexists.
Defined.

(** X7.  When the registration of the providers throws,
    [_bootProviders] throws that error at once: no user alias is applied
    and no provider is booted. *)
Theorem register_failure_skips_aliases_and_boot w s d start e p a c0 er c1 :
  directories s = Some d → d !! "start" = Some start → ioc s = Some c0 →
  tsRequire w (appFile s start) (typescript s) = Ok (JsAppExports e) →
  App.providers e = Some p → App.aceProviders e = Some a →
  is_Some (App.commands e) →
  let chosen := if strict_eq (_intent s) (Some "ace") then p ++ a else p in
  registrar_register w chosen c0 = (Throw er, c1) →
  _bootProviders w s =
    (Throw er, set_ioc c1 s,
     [ NewRegistrar; TsRequire (appFile s start) (typescript s);
       RegistrarRegister chosen ]).
Proof.
  intros Hd Hstart Hc He Hp Ha Hcmd chosen Hreg.
  rewrite (_bootProviders_run w s d start e p a c0) by done.
  fold chosen. by rewrite Hreg.
Qed.

Lemma register_failure_skips_aliases_and_boot_witness :
  outcome (_bootProviders Cases.register_fails_project
             (Sample.before_providers Cases.register_fails_project "http"))
    = Throw Cases.provider_error ∧
  trace (_bootProviders Cases.register_fails_project
           (Sample.before_providers Cases.register_fails_project "http")) =
    [ NewRegistrar; TsRequire ["/srv"; "./start"; "app"] (Some false);
      RegistrarRegister ["A"; "B"] ].
Proof.
  rewrite (register_failure_skips_aliases_and_boot Cases.register_fails_project
    (Sample.before_providers Cases.register_fails_project "http")
    (merge ∅ [Some DEFAULTS.directories; None]) "./start" Sample.app_ab
    ["A"; "B"] ["C"] (helpers_bound (Some false)) Cases.provider_error
    (helpers_bound (Some false))); try reflexivity.
  - by split.
  - by eexists.
Defined.

(** X8.  A failure of [_bootProviders], be it in the descriptor, the
    registration or the boot, ends the bootstrap with that error: the
    calls of the bootstrap stop with those of [_bootProviders], so no
    autoload is registered and no preload file is loaded. *)
Theorem provider_failure_stops_bootstrap w s v e :
  outcome (_require w (rcPath s) true s) = Ok v →
  let rcFile := or_else (asRcFile <$> v) RcFile.empty in
  outcome (_bootProviders w (prepared rcFile s)) = Throw e →
  outcome (_bootstrap w s) = Throw e ∧
  trace (_bootstrap w s) =
    prepared_trace rcFile s ++ trace (_bootProviders w (prepared rcFile s)) ∧
  Forall (none_of is_autoload) (trace (_bootstrap w s)).
Proof.
  intros Hv rcFile He.
  rewrite (_bootstrap_provider_failure w s v e Hv He). fold rcFile.
  split_and!; [done..|].
  unfold trace at 1. cbn [snd]. apply Forall_app. split; [by repeat constructor|].
  generalize (prepared rcFile s). no_call.
Qed.

Lemma provider_failure_stops_bootstrap_witness :
  outcome (_bootstrap Cases.register_fails_project
             (set_intent "http" (new_Ignitor "/srv"))) = Throw Cases.provider_error ∧
  trace (_bootstrap Cases.register_fails_project
           (set_intent "http" (new_Ignitor "/srv"))) =
    [ TsRequire ["/srv"; ".adonisrc.json"] None; NewIoc (Some false);
      IocSingleton "Adonis/Src/Helpers";
      IocAlias ByHelpers "Adonis/Src/Helpers" "Helpers";
      NewRegistrar; TsRequire ["/srv"; "./start"; "app"] (Some false);
      RegistrarRegister ["A"; "B"] ].
Proof.
  destruct (provider_failure_stops_bootstrap Cases.register_fails_project
              (set_intent "http" (new_Ignitor "/srv")) None Cases.provider_error)
    as (Ho & Ht & _); [reflexivity..|].
  split; [exact Ho|exact Ht].
Defined.

(** ** Autoloads, and a bootstrap in which nothing fails *)








(** ** Starting the server: failures and what is left untouched *)

Lemma startHttpServer_try w cb s :
  startHttpServer w cb s = try_catch (start_body w cb) on_failure (set_intent "http" s).
Proof.
  unfold startHttpServer. unfold bind at 1, assign. simpl.
  by destruct (try_catch _ _ _) as [[r s2] t2].
Qed.


Lemma instance_try_catch {A} (m : M A) (h : Error → M A) s :
  instance (try_catch m h s) =
    match outcome (m s) with
    | Ok a => instance (m s)
    | Throw e => instance (h e (instance (m s)))
    end.
Proof.
  unfold try_catch, outcome, instance.
  destruct (m s) as [[[a|e] s1] t1]; simpl; [done|].
  by destruct (h e s1) as [[r s2] t2].
Qed.







Lemma _bootstrap_keeps_server w sv :
  hoare (λ s, server s = sv) (λ _, True) (_bootstrap w).
Proof. unfold _bootstrap. hoare_auto. Qed.

Lemma _bootstrap_no_launch_call w :
  emits (λ e, is_http_step e = false ∧ is_env_get e = false ∧ is_listen e = false)
        (_bootstrap w).
Proof. unfold _bootstrap. apply hoare_emits. hoare_auto. Qed.

(** X13.  When the bootstrap fails, no server is made: the start goes
    from the failed bootstrap straight to the log and the exit, nothing
    is resolved from the container for the launch, the environment is
    not asked, nothing listens, and [this.server] is what it was. *)
Theorem bootstrap_failure_makes_no_server w cb s e :
  outcome (_bootstrap w (set_intent "http" s)) = Throw e →
  trace (startHttpServer w cb s) =
    trace (_bootstrap w (set_intent "http" s)) ++ [ConsoleLog e; ProcessExit 1] ∧
  Forall (λ e, is_http_step e = false ∧ is_env_get e = false ∧ is_listen e = false)
         (trace (startHttpServer w cb s)) ∧
  server (instance (startHttpServer w cb s)) = server s.
Proof.
  intros He.
  rewrite startHttpServer_try, trace_try_catch, instance_try_catch.
  unfold start_body. rewrite outcome_bind, trace_bind, instance_bind, He.
  rewrite app_nil_r. split_and!.
  - done.
  - apply Forall_app. split; [apply _bootstrap_no_launch_call|by repeat constructor].
  - by apply (_bootstrap_keeps_server w (server s) (set_intent "http" s)).
Qed.

Lemma bootstrap_failure_makes_no_server_witness :
  trace (startHttpServer Cases.no_app_project None (new_Ignitor "/srv")) =
    [ TsRequire ["/srv"; ".adonisrc.json"] None; NewIoc (Some false);
      IocSingleton "Adonis/Src/Helpers";
      IocAlias ByHelpers "Adonis/Src/Helpers" "Helpers";
      NewRegistrar; TsRequire ["/srv"; "./start"; "app"] (Some false);
      ConsoleLog Sample.not_found; ProcessExit 1 ] ∧
  server (instance (startHttpServer Cases.no_app_project None (new_Ignitor "/srv")))
    = None.
Proof.
  destruct (bootstrap_failure_makes_no_server Cases.no_app_project None
              (new_Ignitor "/srv") Sample.not_found) as (Ht & _ & Hs); [reflexivity|].
  split; [exact Ht|exact Hs].
Defined.

(** X14.  A start always runs under the intent [http]: whatever intent
    the instance held, and wherever the start ends, the instance holds
    [http] afterwards, and its application root is never changed. *)
Theorem startHttpServer_sets_http_intent w cb s :
  _intent (instance (startHttpServer w cb s)) = Some "http" ∧
  appRoot (instance (startHttpServer w cb s)) = appRoot s.
Proof.
  assert (hoare (λ s', _intent s' = Some "http" ∧ appRoot s' = appRoot s) (λ _, True)
                (try_catch (start_body w cb) on_failure)) as Hinv.
  { unfold start_body, launch, on_failure, _bootstrap. hoare_auto.
    all: by intros ? [? ?]. }
  rewrite startHttpServer_try. by apply Hinv.
Qed.

(** X15.  Loading modules never writes to the instance: [_require],
    [_loadAppFile] and [_preloadFiles] leave every field as it was,
    whether they return or throw. *)
Theorem module_loads_leave_instance_untouched w s filePath optional :
  instance (_require w filePath optional s) = s ∧
  instance (_loadAppFile w s) = s ∧
  instance (_preloadFiles w s) = s.
Proof.
  split_and!.
  - apply _require_instance.
  - assert (hoare (λ s', s' = s) (λ _, True) (_loadAppFile w)) as H
      by (unfold _loadAppFile; hoare_auto).
    by apply H.
  - assert (hoare (λ s', s' = s) (λ _, True) (_preloadFiles w)) as H
      by (unfold _preloadFiles; hoare_auto).
    by apply H.
Qed.

(** X16.  The launch needs both the server and the router: when the
    container cannot resolve the server, [_createHttp] throws after that
    one lookup; when it resolves the server but not the router, it
    throws after the second lookup.  In both cases no route is
    committed, the server is not optimized, no transport is made and
    [this.server] is untouched. *)
Theorem unresolved_server_or_router_stops_launch w cb s c :
  ioc s = Some c →
  (∀ e, ioc_use w "Adonis/Src/Server" = Throw e →
        _createHttp w cb s = (Throw e, s, [IocUse "Adonis/Src/Server"])) ∧
  (∀ srv e, ioc_use w "Adonis/Src/Server" = Ok srv →
            ioc_use w "Adonis/Src/Route" = Throw e →
            _createHttp w cb s =
              (Throw e, s, [IocUse "Adonis/Src/Server"; IocUse "Adonis/Src/Route"])).
Proof.
  intros Hc. split.
  - intros e He. unfold _createHttp.
    erewrite bind_step; [|by apply (use_run w c)]. by rewrite He.
  - intros srv e Hsrv He. unfold _createHttp.
    erewrite bind_step; [|by apply (use_run w c)]. rewrite Hsrv.
    erewrite bind_step; [|by apply (use_run w c)]. by rewrite He.
Qed.

Lemma unresolved_server_or_router_stops_launch_witness :
  _createHttp Cases.no_router_project None Sample.http_ready =
    (Throw Cases.unbound, Sample.http_ready,
     [IocUse "Adonis/Src/Server"; IocUse "Adonis/Src/Route"]).
Proof.
  destruct (unresolved_server_or_router_stops_launch Cases.no_router_project None
              Sample.http_ready Sample.http_container) as [_ Hrouter]; [reflexivity|].
  apply (Hrouter "Adonis/Src/Server"); reflexivity.
Defined.



(** ** Starting again on a used instance *)

(** X18.  The bootstrap reads nothing that an earlier run left behind
    in [directories], [autoloads], [preloads] or the container: it
    returns the same outcome and makes the same calls as on an instance
    where these are unset, and when it returns it leaves the same
    instance. *)
Theorem bootstrap_ignores_earlier_state w s :
  let fresh := mkIgnitor (appRoot s) None None (typescript s) None None
                         (server s) (_intent s) in
  outcome (_bootstrap w s) = outcome (_bootstrap w fresh) ∧
  trace (_bootstrap w s) = trace (_bootstrap w fresh) ∧
  (outcome (_bootstrap w s) = Ok () →
   instance (_bootstrap w s) = instance (_bootstrap w fresh)).
Proof.
  intros fresh.
  assert (outcome (_require w (rcPath fresh) true fresh)
            = outcome (_require w (rcPath s) true s)) as Hsame
    by (by rewrite !_require_outcome).
  destruct (outcome (_require w (rcPath s) true s)) as [v|e] eqn:Hv.
  - rewrite (_bootstrap_run w s v Hv), (_bootstrap_run w fresh v Hsame).
    change (prepared (or_else (asRcFile <$> v) RcFile.empty) fresh)
      with (prepared (or_else (asRcFile <$> v) RcFile.empty) s).
    by destruct (after_helpers w _) as [[r s'] t].
  - rewrite (_bootstrap_throw w s e Hv), (_bootstrap_throw w fresh e Hsame).
    by split_and!.
Qed.

(** X19.  On any instance, used or not, the rc file is the first
    module a start loads and it is loaded with the flag the instance
    holds at that moment: unset on a fresh instance, the flag of the
    earlier run on a used one.  Every load after it passes the flag
    this reading of the rc file resolves to. *)
Theorem restart_loads_rc_with_held_flag w cb s :
  ∃ rest,
    trace (startHttpServer w cb s) = TsRequire (rcPath s) (typescript s) :: rest ∧
    Forall (loads_with
              match tsRequire w (rcPath s) (typescript s) with
              | Ok v => or_flag (RcFile.typescript (asRcFile v)) DEFAULTS.typescript
              | Throw _ => DEFAULTS.typescript
              end) rest.
Proof.
  rewrite startHttpServer_run, trace_try_catch, trace_bind, outcome_bind, instance_bind.
  set (s' := set_intent "http" s).
  destruct (outcome (_require w (rcPath s') true s')) as [v|e] eqn:Hreq.
  - rewrite (_loadRcFile_ok w s' v Hreq). unfold trace at 1, outcome at 1 3; simpl.
    eexists. split; [reflexivity|].
    set (b := match tsRequire w _ _ with Ok _ => _ | Throw _ => _ end).
    destruct (after_rc_flag_kept w cb b
                (rc_applied (or_else (asRcFile <$> v) RcFile.empty) s')) as [Ht _].
    { unfold flag_is. simpl. f_equal. subst b.
      rewrite _require_outcome in Hreq. change (rcPath s') with (rcPath s) in Hreq.
      change (typescript s') with (typescript s) in Hreq.
      destruct (tsRequire w (rcPath s) (typescript s)) as [x|e].
      - by injection Hreq as <-.
      - destruct (_ && _); [by injection Hreq as <-|done]. }
    apply Forall_app. split; [exact Ht|].
    case_match; [constructor|]. by repeat constructor.
  - rewrite (_loadRcFile_throw w s' e Hreq). unfold trace at 1, outcome at 1 2; simpl.
    eexists. split; [reflexivity|].
    by repeat constructor.
Qed.
